(** * kdar/storable: the Perl Storable encoder of storable.go

    A shallow embedding of the encoder ([Marshal], [Encoder.Encode] and the
    [marshal*] methods of [encodeState]) and the properties of its output.

    Conventions of the embedding:
    - a [reflect.Value] is a term of [Value]; the zero [reflect.Value] is
      [VInvalid];
    - the [bytes.Buffer] inside an [encodeState] is the list of bytes written
      so far; a method of [*encodeState] is a state transformer [M A];
    - a run-time panic of the Go program is the outcome [Panics];
    - Go's [error] is [option string], [nil] being [None];
    - Go's [int] is [Z]; the conversions [uint8(...)] and [uint32(...)] are
      written out with their wrap-around. *)

From Stdlib Require Import ZArith List String Ascii Bool Lia.
From Stdlib Require Import Strings.Byte Floats.SpecFloat.
From Stdlib Require Import Numbers.DecimalString Numbers.DecimalZ.
Import ListNotations.
Local Open Scope Z_scope.

(** ** Constants (storable.go, lines 73-83) *)

Definition MAGIC : Z := 5.
Definition VERSION : Z := 7.

Definition SX_ARRAY : Z := 2.
Definition SX_HASH : Z := 3.
Definition SX_REF : Z := 4.
Definition SX_UNDEF : Z := 5.
Definition SX_SCALAR : Z := 10.
Definition SX_UTF8STR : Z := 23.

(** ** Integer conversions and encoding/binary *)

(** [uint8(x)]: the low eight bits of [x]. *)
Definition uint8 (x : Z) : byte :=
  match Byte.of_N (Z.to_N (x mod 256)) with
  | Some b => b
  | None => x00
  end.

(** [uint32(x)]: the low 32 bits of [x]. *)
Definition uint32 (x : Z) : Z := x mod 2 ^ 32.

(** [binary.BigEndian.PutUint32]: most significant byte first. *)
Definition BigEndian_PutUint32 (v : Z) : list byte :=
  [uint8 (Z.shiftr v 24); uint8 (Z.shiftr v 16); uint8 (Z.shiftr v 8); uint8 v].

Definition byte_val (b : byte) : Z := Z.of_N (Byte.to_N b).

(** [binary.BigEndian.Uint32]: the number a reader takes from the four
    bytes. *)
Definition BigEndian_Uint32 (b : list byte) : option Z :=
  match b with
  | [b0; b1; b2; b3] =>
      Some (byte_val b0 * 2 ^ 24 + byte_val b1 * 2 ^ 16 + byte_val b2 * 2 ^ 8
            + byte_val b3)
  | _ => None
  end.

(** ** Strings *)

(** [len(s)] of a Go string: its number of bytes. *)
Definition len (s : string) : Z := Z.of_nat (String.length s).

(** [[]byte(s)]. *)
Definition bytes_of (s : string) : list byte := list_byte_of_string s.

(** [strings.Split(s, ",")]: never empty, the pieces between commas. *)
Fixpoint Split_comma (s : string) : list string :=
  match s with
  | EmptyString => [EmptyString]
  | String c rest =>
      match Split_comma rest with
      | [] => [String c EmptyString]
      | piece :: pieces =>
          if Ascii.eqb c ","%char then EmptyString :: piece :: pieces
          else String c piece :: pieces
      end
  end.

(** [strconv.FormatInt(i, 10)] and [strconv.FormatUint(u, 10)]. *)
Definition FormatInt (i : Z) : string := NilZero.string_of_int (Z.to_int i).
Definition FormatUint (u : Z) : string := NilZero.string_of_uint (N.to_uint (Z.to_N u)).

(** ** reflect: kinds, struct fields, values *)

Inductive Kind : Set :=
| Invalid | Bool
| Int | Int8 | Int16 | Int32 | Int64
| Uint | Uint8 | Uint16 | Uint32 | Uint64 | Uintptr
| Float32 | Float64 | Complex64 | Complex128
| Array | Chan | Func | Interface | Map | Ptr | Slice | String_ | Struct
| UnsafePointer.

Inductive IntKind : Set := KInt | KInt8 | KInt16 | KInt32 | KInt64.
Inductive UintKind : Set := KUint | KUint8 | KUint16 | KUint32 | KUint64 | KUintptr.
Inductive FloatKind : Set := KFloat32 | KFloat64.
Inductive ComplexKind : Set := KComplex64 | KComplex128.

(** A [reflect.StructTag] in the conventional form, as its key/value
    pairs; [Tag.Get] yields the value of the first pair with the key and the
    empty string when there is none. *)
Definition StructTag := list (string * string).

Definition Tag_Get (tag : StructTag) (key : string) : string :=
  match find (fun kv => String.eqb (fst kv) key) tag with
  | Some kv => snd kv
  | None => EmptyString
  end.

(** [reflect.StructField]: [PkgPath] is empty exactly for exported fields. *)
Record StructField : Set := mkField {
  Name : string;
  PkgPath : string;
  Tag : StructTag
}.


#[local] Set Warnings "-register-all".

(** The values the encoder can be handed.  A float is kept as its IEEE 754
    datum (a [float32] already widened, as [Value.Float] returns it).  A
    pointer is [VPtr]; a nil pointer whose type is a pointer to an array
    is [VNilPtrToArray] with the length the array type has, which
    [Value.Len] reads off the type. *)
Inductive Value : Type :=
| VInvalid
| VBool (b : bool)
| VInt (k : IntKind) (i : Z)
| VUint (k : UintKind) (u : Z)
| VFloat (k : FloatKind) (f : spec_float)
| VComplex (k : ComplexKind) (re im : spec_float)
| VString (s : string)
| VPtr (pointee : option Value)
| VNilPtrToArray (n : Z)
| VStruct (fields : list (StructField * Value))
| VSlice (elems : list Value)
| VArray (elems : list Value)
| VMap (entries : list (Value * Value))
| VChan (queued : list Value)
| VFunc
| VInterface (dynamic : option Value)
| VUnsafePointer.

Definition IntKind_Kind (k : IntKind) : Kind :=
  match k with
  | KInt => Int | KInt8 => Int8 | KInt16 => Int16 | KInt32 => Int32 | KInt64 => Int64
  end.

Definition UintKind_Kind (k : UintKind) : Kind :=
  match k with
  | KUint => Uint | KUint8 => Uint8 | KUint16 => Uint16 | KUint32 => Uint32
  | KUint64 => Uint64 | KUintptr => Uintptr
  end.

Definition FloatKind_Kind (k : FloatKind) : Kind :=
  match k with KFloat32 => Float32 | KFloat64 => Float64 end.

Definition ComplexKind_Kind (k : ComplexKind) : Kind :=
  match k with KComplex64 => Complex64 | KComplex128 => Complex128 end.

(** [Value.Kind]. *)
Definition Kind_of (value : Value) : Kind :=
  match value with
  | VInvalid => Invalid
  | VBool _ => Bool
  | VInt k _ => IntKind_Kind k
  | VUint k _ => UintKind_Kind k
  | VFloat k _ => FloatKind_Kind k
  | VComplex k _ _ => ComplexKind_Kind k
  | VString _ => String_
  | VPtr _ | VNilPtrToArray _ => Ptr
  | VStruct _ => Struct
  | VSlice _ => Slice
  | VArray _ => Array
  | VMap _ => Map
  | VChan _ => Chan
  | VFunc => Func
  | VInterface _ => Interface
  | VUnsafePointer => UnsafePointer
  end.

(** [Value.Type().Kind()]: [Value.Type] panics on the zero Value. *)
Definition Type_Kind (value : Value) : option Kind :=
  match value with
  | VInvalid => None
  | _ => Some (Kind_of value)
  end.

(** [Value.Len]: the length of a string, slice, array, channel or map,
    and of the array type behind a pointer to an array (nil or not);
    panics on every other kind and on a pointer to anything else. *)
Definition Len (value : Value) : option Z :=
  match value with
  | VString s => Some (len s)
  | VSlice elems | VArray elems | VChan elems => Some (Z.of_nat (List.length elems))
  | VMap entries => Some (Z.of_nat (List.length entries))
  | VPtr (Some (VArray elems)) => Some (Z.of_nat (List.length elems))
  | VNilPtrToArray n => Some n
  | _ => None
  end.

(** [Value.Elem]: the pointee of a pointer or the dynamic value of an
    interface, the zero Value when that is nil; panics on other kinds. *)
Definition Value_Elem (value : Value) : option Value :=
  match value with
  | VPtr (Some v) | VInterface (Some v) => Some v
  | VPtr None | VNilPtrToArray _ | VInterface None => Some VInvalid
  | _ => None
  end.

(** The fields [typ.Field(0)], ..., [typ.Field(typ.NumField()-1)] of a
    struct with their values; [NumField] panics on other kinds. *)
Definition Value_fields (value : Value) : option (list (StructField * Value)) :=
  match value with
  | VStruct fields => Some fields
  | _ => None
  end.

(** The elements [value.Index(0)], ..., [value.Index(value.Len()-1)] of a
    slice or an array. *)
Definition Value_elems (value : Value) : option (list Value) :=
  match value with
  | VSlice elems | VArray elems => Some elems
  | _ => None
  end.

(** [Type.Bits] of a float type. *)
Definition Bits (k : FloatKind) : Z :=
  match k with KFloat32 => 32 | KFloat64 => 64 end.

(** ** The encodeState and its methods *)

Definition error := option string.

Definition isErr (err : error) : bool :=
  match err with Some _ => true | None => false end.

(** The accumulated output of a [bytes.Buffer]. *)
Definition encodeState := list byte.

Inductive outcome (A : Type) : Type :=
| Returns (a : A) (e : encodeState)
| Panics.
Arguments Returns {A} a e.
Arguments Panics {A}.

(** A method with receiver [e *encodeState] and result [A]. *)
Definition M (A : Type) : Type := encodeState -> outcome A.

Definition ret {A} (a : A) : M A := fun e => Returns a e.

Definition bind {A B} (c : M A) (k : A -> M B) : M B :=
  fun e => match c e with
           | Returns a e' => k a e'
           | Panics => Panics
           end.

Definition panic {A} : M A := fun _ => Panics.

Notation "x <- c ;; k" := (bind c (fun x => k))
  (at level 61, c at next level, right associativity).

(** A reflect call that may panic. *)
Definition reflect_call {A} (r : option A) : M A :=
  match r with
  | Some a => ret a
  | None => panic
  end.

(** [e.Write(p)] and [e.WriteString(s)]: a [bytes.Buffer] appends and
    returns a nil error. *)
Definition Write (p : list byte) : M error := fun e => Returns None (e ++ p).
Definition WriteString (s : string) : M error := Write (bytes_of s).

(** [binary.Write(e, binary.BigEndian, uint8(x))] and the same for
    [uint32(x)]. *)
Definition binary_Write_uint8 (x : Z) : M error := Write [uint8 x].
Definition binary_Write_uint32 (x : Z) : M error := Write (BigEndian_PutUint32 (uint32 x)).

(** [e2 := &encodeState{}], then [c] run with receiver [e2]: the bytes of
    [e2] are handed back and [e] is not touched. *)
Definition on_fresh_state {A} (c : M A) : M (A * encodeState) :=
  fun e => match c [] with
           | Returns a e2 => Returns (a, e2) e
           | Panics => Panics
           end.

(** ** Values of the test suite (storable_test.go, lines 21-44) *)

Definition exported_field (name : string) (tag : StructTag) : StructField :=
  {| Name := name; PkgPath := EmptyString; Tag := tag |}.

Definition unexported_field (name : string) (tag : StructTag) : StructField :=
  {| Name := name; PkgPath := "storable"; Tag := tag |}.

(** [nested{"Kevin"}] and [struct{ Name string }{"Kevin"}]. *)
Definition test_nested_fields : list (StructField * Value) :=
  [(exported_field "Name" [], VString "Kevin")].
Definition test_nested : Value := VStruct test_nested_fields.

(** [struct{ Name string; Omit string `storable:"omitempty"` }{Name: "Kevin"}]. *)
Definition test_Omit : StructField :=
  exported_field "Omit" [("storable", "omitempty")%string].
Definition test_omit_fields : list (StructField * Value) :=
  [(exported_field "Name" [], VString "Kevin"); (test_Omit, VString EmptyString)].
Definition test_omit : Value := VStruct test_omit_fields.

(** [struct{ nested *nested }{&nested{"Kevin"}}]. *)
Definition test_unexported_fields : list (StructField * Value) :=
  [(unexported_field "nested" [], VPtr (Some test_nested))].
Definition test_unexported : Value := VStruct test_unexported_fields.

(** [[]string{"hey", "there"}]. *)
Definition test_slice_elems : list Value := [VString "hey"; VString "there"].
Definition test_slice : Value := VSlice test_slice_elems.

(** The bytes of the test values as the encoder writes them. *)
Definition Kevin_bytes : list byte :=
  [x0a; x05] ++ bytes_of "Kevin".
Definition Name_Kevin_bytes : list byte :=
  Kevin_bytes ++ [x00; x00; x00; x04] ++ bytes_of "Name".
Definition test_nested_bytes : list byte :=
  [x03; x00; x00; x00; x01] ++ Name_Kevin_bytes.
Definition test_unexported_bytes : list byte :=
  [x03; x00; x00; x00; x01; x04] ++ test_nested_bytes
    ++ [x00; x00; x00; x06] ++ bytes_of "nested".
Definition test_slice_bytes : list byte :=
  [x02; x00; x00; x00; x02; x0a; x03] ++ bytes_of "hey"
    ++ [x0a; x05] ++ bytes_of "there".

(** [struct{ _ [1]int; _ string `storable:"omitempty"` }{}]: two blank
    fields, the second one tagged and empty. *)
Definition blank_array : StructField := unexported_field "_" [].
Definition blank_omit : StructField :=
  unexported_field "_" [("storable", "omitempty")%string].
Definition blank_fields : list (StructField * Value) :=
  [(blank_array, VArray [VInt KInt 0]); (blank_omit, VString EmptyString)].

(** The entry of the first blank field: the array [[1]int{0}], then the
    key ["_"]. *)
Definition blank_array_entry : list byte :=
  [x02; x00; x00; x00; x01; x0a; x01; x30] ++ [x00; x00; x00; x01; x5f].

(** A string of [n] bytes [c]. *)
Fixpoint repeat_char (c : ascii) (n : nat) : string :=
  match n with
  | O => EmptyString
  | S n' => String c (repeat_char c n')
  end.

(** A stand-in for [strconv.FormatFloat] in the closed examples, none of
    which holds a float. *)
Definition FormatFloat_none : spec_float -> Z -> string := fun _ _ => EmptyString.

(** A writer that keeps what it is given and never fails: a
    [bytes.Buffer] as [io.Writer]. *)
Definition Buffer_Write (w p : list byte) : list byte * error := (w ++ p, None).

(** A writer that takes nothing and fails: a closed pipe. *)
Definition Closed_Write (w : unit) (p : list byte) : unit * error :=
  (w, Some "io: read/write on closed pipe"%string).

(** ** Scalars (storable.go, lines 245-337)

    The receivers of [Value.Bool], [Value.String], [Value.Int],
    [Value.Uint] and [Value.Float]; [None] is the panic on another kind
    ([Value.String] alone never panics: on a value that is not a string
    it yields the text [<T Value>], [T] naming the type.  A value carries
    no type name here; the name of its kind, which is the name of every
    predeclared type, stands for [T].  [marshalString] is reached on
    strings only). *)

(** [Kind.String]. *)
Definition Kind_String (k : Kind) : string :=
  match k with
  | Invalid => "invalid" | Bool => "bool"
  | Int => "int" | Int8 => "int8" | Int16 => "int16" | Int32 => "int32"
  | Int64 => "int64"
  | Uint => "uint" | Uint8 => "uint8" | Uint16 => "uint16" | Uint32 => "uint32"
  | Uint64 => "uint64" | Uintptr => "uintptr"
  | Float32 => "float32" | Float64 => "float64"
  | Complex64 => "complex64" | Complex128 => "complex128"
  | Array => "array" | Chan => "chan" | Func => "func"
  | Interface => "interface" | Map => "map" | Ptr => "ptr" | Slice => "slice"
  | String_ => "string" | Struct => "struct" | UnsafePointer => "unsafe.Pointer"
  end%string.

Definition Value_Bool (value : Value) : option bool :=
  match value with VBool b => Some b | _ => None end.

Definition Value_String (value : Value) : string :=
  match value with
  | VString s => s
  | _ => ("<" ++ Kind_String (Kind_of value) ++ " Value>")%string
  end.

Definition Value_Int (value : Value) : option Z :=
  match value with VInt _ i => Some i | _ => None end.

Definition Value_Uint (value : Value) : option Z :=
  match value with VUint _ u => Some u | _ => None end.

Definition Value_Float (value : Value) : option (spec_float * Z) :=
  match value with VFloat k f => Some (f, Bits k) | _ => None end.

Definition marshalBool (value : Value) : M error :=
  err <- binary_Write_uint8 SX_SCALAR ;;
  if isErr err then ret err else
  err <- binary_Write_uint8 1 ;;
  if isErr err then ret err else
  b <- reflect_call (Value_Bool value) ;;
  if b : bool then Write (bytes_of (FormatInt 1))
  else Write (bytes_of (FormatInt 0)).

Definition marshalString (value : Value) : M error :=
  err <- binary_Write_uint8 SX_SCALAR ;;
  if isErr err then ret err else
  n <- reflect_call (Len value) ;;
  err <- binary_Write_uint8 n ;;
  if isErr err then ret err else
  Write (bytes_of (Value_String value)).

Definition marshalInt (value : Value) : M error :=
  err <- binary_Write_uint8 SX_SCALAR ;;
  if isErr err then ret err else
  i <- reflect_call (Value_Int value) ;;
  let s := FormatInt i in
  err <- binary_Write_uint8 (len s) ;;
  if isErr err then ret err else
  Write (bytes_of s).

Definition marshalUint (value : Value) : M error :=
  err <- binary_Write_uint8 SX_SCALAR ;;
  if isErr err then ret err else
  u <- reflect_call (Value_Uint value) ;;
  let s := FormatUint u in
  err <- binary_Write_uint8 (len s) ;;
  if isErr err then ret err else
  Write (bytes_of s).

Section Encoder.

(** [strconv.FormatFloat(f, 'g', -1, bitSize)], the shortest decimal text
    that reads back as [f] at the given width; the standard library's
    routine is taken as given. *)
Variable FormatFloat_g : spec_float -> Z -> string.

(** An [io.Writer]: [w.Write(p)] yields the writer afterwards and its
    error. *)
Variable Writer : Type.
Variable Writer_Write : Writer -> list byte -> Writer * error.

Definition marshalFloat (value : Value) : M error :=
  err <- binary_Write_uint8 SX_SCALAR ;;
  if isErr err then ret err else
  fb <- reflect_call (Value_Float value) ;;
  let s := FormatFloat_g (fst fb) (snd fb) in
  err <- binary_Write_uint8 (len s) ;;
  if isErr err then ret err else
  Write (bytes_of s).

(** ** Aggregates (storable.go, lines 174-243)

    The two walks are written over any carrier [V] of sub-values, given
    what they ask of a sub-value: its [Len] and [e.marshalValue] on it. *)

Section Walk.

Context {V : Type}.
Variable V_Len : V -> option Z.
Variable V_marshalValue : V -> M error.
Variable V_zero : V.

(** [value.FieldByName(name)]: the first field of that name, the zero
    Value when there is none. *)
Definition FieldByName (fields : list (StructField * V)) (name : string) : V :=
  match find (fun fx => String.eqb (Name (fst fx)) name) fields with
  | Some fx => snd fx
  | None => V_zero
  end.

(** The test of line 193. *)
Definition omitempty (f : StructField) : bool :=
  match Split_comma (Tag_Get (Tag f) "storable") with
  | opt :: _ => String.eqb opt "omitempty"
  | [] => false
  end.

(** The loop of lines 188-209 from field [i] on, [rest] being the fields
    [typ.Field(i)], [typ.Field(i+1)], ...; the receiver is [e2].  It ends
    with the error of an early [return err], or nil, and [totalSize]. *)
Fixpoint marshalFields (fields rest : list (StructField * V)) (totalSize : Z)
  : M (error * Z) :=
  match rest with
  | [] => ret (None, totalSize)
  | (f, _) :: rest' =>
      let fieldValue := FieldByName fields (Name f) in
      skip <- (if omitempty f
               then n <- reflect_call (V_Len fieldValue) ;; ret (n =? 0)
               else ret false) ;;
      if skip : bool then marshalFields fields rest' totalSize else
      let totalSize := totalSize + 1 in
      err <- V_marshalValue fieldValue ;;
      if isErr err then ret (err, totalSize) else
      _ <- binary_Write_uint32 (len (Name f)) ;;
      err <- WriteString (Name f) ;;
      if isErr err then ret (err, totalSize) else
      marshalFields fields rest' totalSize
  end.

Definition marshalStruct (fields : list (StructField * V)) : M error :=
  err <- binary_Write_uint8 SX_HASH ;;
  if isErr err then ret err else
  r <- on_fresh_state (marshalFields fields fields 0) ;;
  let '(err, totalSize, e2) := r in
  if isErr err then ret err else
  err <- binary_Write_uint32 totalSize ;;
  if isErr err then ret err else
  Write e2.

(** The loop of lines 235-240 over [value.Index(i)], [value.Index(i+1)],
    ... *)
Fixpoint marshalElems (elems : list V) : M error :=
  match elems with
  | [] => ret None
  | elem :: elems' =>
      err <- V_marshalValue elem ;;
      if isErr err then ret err else
      marshalElems elems'
  end.

Definition marshalSlice (elems : list V) : M error :=
  err <- binary_Write_uint8 SX_ARRAY ;;
  if isErr err then ret err else
  let n := Z.of_nat (List.length elems) in
  err <- binary_Write_uint32 n ;;
  if isErr err then ret err else
  marshalElems elems.

End Walk.

(** ** Dispatch (storable.go, lines 141-172) *)

(** A field value together with [e.marshalValue] on it. *)
Definition walked : Type := Value * M error.

(** [e.marshalValue(value)].  The recursion follows the structure of the
    value.  [marshalStruct] reaches a field value by a search
    ([FieldByName]), so the struct case hands it every field value paired
    with [marshalValue] on it; the switch is on the constructors, one for
    each group of kinds of the source.  [marshalValue_unfold] states the
    method with [Value.Kind], [Value.Elem] and [Value.Type] as the source
    has it. *)
Fixpoint marshalValue (value : Value) : M error :=
  let switch (value : Value) : M error :=
    match value with
    | VInvalid => panic
    | VStruct fields =>
        marshalStruct (fun x : walked => Len (fst x)) snd (VInvalid, panic)
          (map (fun fx => (fst fx, (snd fx, marshalValue (snd fx)))) fields)
    | VSlice elems | VArray elems => marshalSlice marshalValue elems
    | VBool _ => marshalBool value
    | VString _ => marshalString value
    | VInt _ _ => marshalInt value
    | VUint _ _ => marshalUint value
    | VFloat _ _ => marshalFloat value
    | _ => ret None
    end in
  match value with
  | VPtr pointee =>
      err <- binary_Write_uint8 SX_REF ;;
      if isErr err then ret err else
      match pointee with
      | Some value => switch value
      | None => panic
      end
  | VNilPtrToArray _ =>
      err <- binary_Write_uint8 SX_REF ;;
      if isErr err then ret err else
      panic
  | _ => switch value
  end.

(** A value walked: the pair the struct case of [marshalValue] maps its
    field values to. *)
Definition walk (value : Value) : walked := (value, marshalValue value).

(** Lines 153-171 and lines 141-172 as the source spells them, on
    [Value.Kind], [Value.Elem] and [Value.Type]. *)

Definition dispatch (value : Value) : M error :=
  k <- reflect_call (Type_Kind value) ;;
  match k with
  | Struct =>
      fields <- reflect_call (Value_fields value) ;;
      marshalStruct Len marshalValue VInvalid fields
  | Slice | Array =>
      elems <- reflect_call (Value_elems value) ;;
      marshalSlice marshalValue elems
  | Bool => marshalBool value
  | String_ => marshalString value
  | Int | Int8 | Int16 | Int32 | Int64 => marshalInt value
  | Uint | Uint8 | Uint16 | Uint32 | Uint64 | Uintptr => marshalUint value
  | Float32 | Float64 => marshalFloat value
  | _ => ret None
  end.

Definition is_Ptr (k : Kind) : bool :=
  match k with Ptr => true | _ => false end.

Definition marshalValue_body (value : Value) : M error :=
  if is_Ptr (Kind_of value) then
    value <- reflect_call (Value_Elem value) ;;
    err <- binary_Write_uint8 SX_REF ;;
    if isErr err then ret err else
    dispatch value
  else dispatch value.

(** ** Entry points (storable.go, lines 85-139) *)

(** An [interface{}] argument: nil, or the value handed over. *)
Definition iface := option Value.

(** What an interface holds: a value of an interface type handed over as
    [interface{}] gives its dynamic value, and nil when it holds none. *)
Fixpoint dynamic_value (value : Value) : Value :=
  match value with
  | VInterface held =>
      match held with
      | Some value' => dynamic_value value'
      | None => VInvalid
      end
  | _ => value
  end.

(** [reflect.ValueOf]: the dynamic value of the argument, never of kind
    Interface; the zero Value for nil. *)
Definition ValueOf (v : iface) : Value :=
  match v with
  | Some value => dynamic_value value
  | None => VInvalid
  end.

Definition marshal (v : iface) : M error :=
  err <- binary_Write_uint8 MAGIC ;;
  if isErr err then ret err else
  err <- binary_Write_uint8 VERSION ;;
  if isErr err then ret err else
  marshalValue (ValueOf v).

(** [Marshal]: the bytes and the error, [None] when the call panics. *)
Definition Marshal (v : iface) : option (list byte * error) :=
  match marshal v [] with
  | Returns err e => Some (e, err)
  | Panics => None
  end.

Record Encoder : Type := mkEncoder {
  enc_w : Writer;
  enc_e : encodeState;
  enc_err : error
}.

Definition NewEncoder (w : Writer) : Encoder :=
  {| enc_w := w; enc_e := []; enc_err := None |}.

(** [enc.Encode(v)]: the encoder afterwards and the error returned,
    [None] when the call panics. *)
Definition Encode (enc : Encoder) (v : iface) : option (Encoder * error) :=
  let e := @nil byte in (* enc.e.Reset() *)
  match marshal v e with
  | Panics => None
  | Returns _ e =>
      let (w, err) := Writer_Write (enc_w enc) e in
      Some ({| enc_w := w; enc_e := e;
               enc_err := if isErr err then err else enc_err enc |}, err)
  end.

(** ** What the encoder writes, read off the value *)

(** What the struct loop does with one field, read off the source: the
    field value it looks at, whether line 193 skips it, and the key bytes
    of lines 204-205. *)

Definition fieldValue (fields : list (StructField * Value)) (f : StructField) : Value :=
  FieldByName VInvalid fields (Name f).

Definition skips (fields : list (StructField * Value)) (f : StructField) : bool :=
  omitempty f &&
  match Len (fieldValue fields f) with
  | Some n => n =? 0
  | None => false
  end.

Definition kept (fields : list (StructField * Value)) : list (StructField * Value) :=
  filter (fun fx => negb (skips fields (fst fx))) fields.

Definition key_bytes (f : StructField) : list byte :=
  BigEndian_PutUint32 (uint32 (len (Name f))) ++ bytes_of (Name f).

(** The bytes [e.marshalValue(value)] appends to its receiver, [None]
    when it panics. *)
Definition encode (value : Value) : option (list byte) :=
  match marshalValue value [] with
  | Returns _ out => Some out
  | Panics => None
  end.

(** [chunk] is the entry written for the field [fx]: value, then key. *)
Definition entry_of (fields : list (StructField * Value))
  (fx : StructField * Value) (chunk : list byte) : Prop :=
  exists venc, encode (fieldValue fields (fst fx)) = Some venc /\
               chunk = venc ++ key_bytes (fst fx).

(** The entries the loop writes for the fields [rest], [None] when it
    panics on the way. *)
Fixpoint entries (fields rest : list (StructField * Value)) : option (list (list byte)) :=
  match rest with
  | [] => Some []
  | (f, _) :: rest' =>
      let value := fieldValue fields f in
      if omitempty f && match Len value with Some _ => false | None => true end
      then None
      else if skips fields f then entries fields rest'
      else match encode value, entries fields rest' with
           | Some venc, Some chunks => Some ((venc ++ key_bytes f) :: chunks)
           | _, _ => None
           end
  end.

(** The encodings of a list of elements, [None] when one panics. *)
Fixpoint encode_all (elems : list Value) : option (list (list byte)) :=
  match elems with
  | [] => Some []
  | elem :: elems' =>
      match encode elem, encode_all elems' with
      | Some c, Some chunks => Some (c :: chunks)
      | _, _ => None
      end
  end.

(** The kinds the switch of [marshalValue] has no case for, the kind of a
    pointer apart. *)
Definition unsupported (k : Kind) : bool :=
  match k with
  | Complex64 | Complex128 | Chan | Func | Interface | Map | UnsafePointer => true
  | _ => false
  end.

(** The text a scalar is written as. *)
Definition scalar_text (value : Value) : option string :=
  match value with
  | VBool b => Some (if b then "1" else "0")%string
  | VString s => Some s
  | VInt _ i => Some (FormatInt i)
  | VUint _ u => Some (FormatUint u)
  | VFloat k f => Some (FormatFloat_g f (Bits k))
  | _ => None
  end.


(** [e.marshalValue(value)] appends [encode value] to any receiver and
    returns a nil error, or panics. *)
Definition appends_encoding (value : Value) : Prop :=
  forall e : encodeState,
    marshalValue value e =
    match encode value with
    | Some out => Returns None (e ++ out)
    | None => Panics
    end.

(** The kinds the switch of [marshalValue] sends to a scalar routine. *)
Definition scalar_kind (k : Kind) : bool :=
  match k with
  | Bool | String_
  | Int | Int8 | Int16 | Int32 | Int64
  | Uint | Uint8 | Uint16 | Uint32 | Uint64 | Uintptr
  | Float32 | Float64 => true
  | _ => false
  end.

(** The values on which the walk of [marshalValue] meets no panic: no
    zero Value and no nil pointer where it calls [value.Type()], and a
    length wherever line 193 calls [fieldValue.Len()].  A pointee that is
    itself a pointer (nil or not) is not looked into, and neither is a
    skipped field. *)
Inductive encodable : Value -> Prop :=
| encodable_scalar (value : Value) :
    scalar_kind (Kind_of value) = true -> encodable value
| encodable_unsupported (value : Value) :
    unsupported (Kind_of value) = true -> encodable value
| encodable_pointer_to_pointer (pointee : Value) :
    is_Ptr (Kind_of pointee) = true ->
    encodable (VPtr (Some pointee))
| encodable_pointer (pointee : Value) :
    is_Ptr (Kind_of pointee) = false ->
    encodable pointee ->
    encodable (VPtr (Some pointee))
| encodable_struct (fields : list (StructField * Value)) :
    (forall fx, In fx fields -> omitempty (fst fx) = true ->
                Len (fieldValue fields (fst fx)) <> None) ->
    (forall fx, In fx fields -> skips fields (fst fx) = false ->
                encodable (fieldValue fields (fst fx))) ->
    encodable (VStruct fields)
| encodable_slice (elems : list Value) :
    (forall elem, In elem elems -> encodable elem) ->
    encodable (VSlice elems)
| encodable_array (elems : list Value) :
    (forall elem, In elem elems -> encodable elem) ->
    encodable (VArray elems).

(** Case analysis on a value whose kind is, or is not, [Ptr]. *)
Ltac by_kind value :=
  destruct value as [| ?b | [] ?i | [] ?u | [] ?f | [] ?re ?im | ?s | ?pointee
                    | ?n | ?fields | ?elems | ?elems | ?entries | ?queued | | ?dynamic |];
  try discriminate.

(** ** Bytes and counts *)

Arguments uint8 : simpl never.
Arguments uint32 : simpl never.
Arguments BigEndian_PutUint32 : simpl never.
Arguments BigEndian_Uint32 : simpl never.
Arguments bytes_of : simpl never.
Arguments len : simpl never.
Arguments FormatInt : simpl never.
Arguments FormatUint : simpl never.

Lemma byte_val_uint8 (x : Z) : byte_val (uint8 x) = x mod 256.
Proof.
  unfold byte_val, uint8.
  assert (Hr : 0 <= x mod 256 < 256) by (apply Z.mod_pos_bound; lia).
  destruct (Byte.of_N (Z.to_N (x mod 256))) as [b|] eqn:Hb.
  - apply Byte.to_of_N in Hb. rewrite Hb. apply Z2N.id. lia.
  - apply Byte.of_N_None_iff in Hb. lia.
Qed.

Lemma uint32_small (n : Z) : 0 <= n < 2 ^ 32 -> uint32 n = n.
Proof. intros H. unfold uint32. apply Z.mod_small. exact H. Qed.

Lemma uint32_range (n : Z) : 0 <= uint32 n < 2 ^ 32.
Proof. unfold uint32. apply Z.mod_pos_bound. lia. Qed.

Lemma Uint32_PutUint32 (v : Z) :
  0 <= v < 2 ^ 32 -> BigEndian_Uint32 (BigEndian_PutUint32 v) = Some v.
Proof.
  intros Hv. unfold BigEndian_Uint32, BigEndian_PutUint32.
  rewrite !byte_val_uint8, !Z.shiftr_div_pow2 by lia.
  f_equal.
  change (2 ^ 24) with 16777216. change (2 ^ 16) with 65536.
  change (2 ^ 8) with 256. change (2 ^ 32) with 4294967296 in Hv.
  assert (H24 : v / 16777216 = v / 65536 / 256) by (rewrite Z.div_div by lia; reflexivity).
  assert (H16 : v / 65536 = v / 256 / 256) by (rewrite Z.div_div by lia; reflexivity).
  pose proof (Z.div_mod v 256 ltac:(lia)) as E0.
  pose proof (Z.div_mod (v / 256) 256 ltac:(lia)) as E1.
  pose proof (Z.div_mod (v / 65536) 256 ltac:(lia)) as E2.
  pose proof (Z.mod_pos_bound v 256 ltac:(lia)).
  pose proof (Z.mod_pos_bound (v / 256) 256 ltac:(lia)).
  pose proof (Z.mod_pos_bound (v / 65536) 256 ltac:(lia)).
  assert (Hs : 0 <= v / 16777216 < 256).
  { split; [apply Z.div_pos; lia | apply Z.div_lt_upper_bound; lia]. }
  rewrite (Z.mod_small (v / 16777216)) by exact Hs.
  rewrite <- H16 in E1. rewrite <- H24 in E2. lia.
Qed.

(** A count below 2^32 is read back from the four bytes written for it. *)
Lemma count_roundtrip (n : nat) :
  Z.of_nat n < 2 ^ 32 ->
  BigEndian_Uint32 (BigEndian_PutUint32 (uint32 (Z.of_nat n))) = Some (Z.of_nat n).
Proof.
  intros H. rewrite uint32_small by lia. apply Uint32_PutUint32. lia.
Qed.

Lemma length_bytes_of (s : string) : List.length (bytes_of s) = String.length s.
Proof.
  unfold bytes_of, list_byte_of_string.
  rewrite length_map. induction s as [|c s IH]; simpl; [reflexivity | now rewrite IH].
Qed.

(** ** The monad *)

Lemma bind_Write {B} (p : list byte) (k : error -> M B) (e : encodeState) :
  bind (Write p) k e = k None (e ++ p).
Proof. reflexivity. Qed.

Lemma bind_ext {A B} (c : M A) (k k' : A -> M B) (e : encodeState) :
  (forall a e', k a e' = k' a e') -> bind c k e = bind c k' e.
Proof. intros H. unfold bind. destruct (c e); [apply H | reflexivity]. Qed.

Lemma bind_cong {A B} (c c' : M A) (k k' : A -> M B) (e : encodeState) :
  c e = c' e -> (forall a e', k a e' = k' a e') -> bind c k e = bind c' k' e.
Proof. intros Hc H. unfold bind. rewrite Hc. destruct (c' e); [apply H | reflexivity]. Qed.

(** ** [marshalValue] satisfies the equations of the source *)

Lemma FieldByName_walk (fields : list (StructField * Value)) (name : string) :
  FieldByName (VInvalid, panic) (map (fun fx => (fst fx, walk (snd fx))) fields) name
  = walk (FieldByName VInvalid fields name).
Proof.
  unfold FieldByName.
  induction fields as [|[f x] fields IH]; simpl; [reflexivity|].
  destruct (String.eqb (Name f) name); [reflexivity | exact IH].
Qed.

Lemma marshalFields_walk (fields rest : list (StructField * Value)) :
  forall (totalSize : Z) (e2 : encodeState),
    marshalFields (fun x : walked => Len (fst x)) snd (VInvalid, panic)
      (map (fun fx => (fst fx, walk (snd fx))) fields)
      (map (fun fx => (fst fx, walk (snd fx))) rest) totalSize e2
    = marshalFields Len marshalValue VInvalid fields rest totalSize e2.
Proof.
  induction rest as [|[f x] rest IH]; intros totalSize e2; [reflexivity|].
  cbn [map marshalFields fst snd].
  rewrite FieldByName_walk. cbn [walk fst snd].
  apply bind_ext. intros skip e'.
  destruct skip; [apply IH|].
  apply bind_ext. intros err e''.
  destruct (isErr err); [reflexivity|].
  apply bind_ext. intros _ e3. apply bind_ext. intros err' e4.
  destruct (isErr err'); [reflexivity | apply IH].
Qed.

Lemma marshalStruct_walk (fields : list (StructField * Value)) (e : encodeState) :
  marshalStruct (fun x : walked => Len (fst x)) snd (VInvalid, panic)
    (map (fun fx => (fst fx, walk (snd fx))) fields) e
  = marshalStruct Len marshalValue VInvalid fields e.
Proof.
  unfold marshalStruct. apply bind_ext. intros err e'.
  destruct (isErr err); [reflexivity|].
  apply bind_cong; [|reflexivity].
  unfold on_fresh_state. rewrite marshalFields_walk. reflexivity.
Qed.

Lemma dispatch_not_Ptr (value : Value) (e : encodeState) :
  is_Ptr (Kind_of value) = false -> marshalValue value e = dispatch value e.
Proof.
  intros Hk. by_kind value; try reflexivity.
  apply marshalStruct_walk.
Qed.

(** The source's [marshalValue], line by line. *)
Lemma marshalValue_unfold (value : Value) (e : encodeState) :
  marshalValue value e = marshalValue_body value e.
Proof.
  unfold marshalValue_body.
  destruct (is_Ptr (Kind_of value)) eqn:Hk.
  - by_kind value; [|reflexivity].
    destruct pointee as [value|]; [|reflexivity].
    clear Hk. by_kind value; try reflexivity.
    apply (marshalStruct_walk fields (e ++ [uint8 SX_REF])).
  - apply dispatch_not_Ptr. exact Hk.
Qed.

Lemma dispatch_Ptr (value : Value) (e : encodeState) :
  is_Ptr (Kind_of value) = true -> dispatch value e = Returns None e.
Proof. intros Hk. by_kind value; reflexivity. Qed.

(** What a pointer costs: the tag, and then the switch on the pointee. *)
Lemma marshalValue_VPtr (pointee : Value) (e : encodeState) :
  marshalValue (VPtr (Some pointee)) e =
  if is_Ptr (Kind_of pointee) then Returns None (e ++ [uint8 SX_REF])
  else marshalValue pointee (e ++ [uint8 SX_REF]).
Proof.
  rewrite marshalValue_unfold. unfold marshalValue_body. cbn.
  destruct (is_Ptr (Kind_of pointee)) eqn:Hk.
  - apply dispatch_Ptr. exact Hk.
  - symmetry. apply dispatch_not_Ptr. exact Hk.
Qed.

(** ** Induction on values *)

Lemma Value_nested_ind (P : Value -> Prop) :
  P VInvalid ->
  (forall b, P (VBool b)) ->
  (forall k i, P (VInt k i)) ->
  (forall k u, P (VUint k u)) ->
  (forall k f, P (VFloat k f)) ->
  (forall k re im, P (VComplex k re im)) ->
  (forall s, P (VString s)) ->
  P (VPtr None) ->
  (forall pointee, P pointee -> P (VPtr (Some pointee))) ->
  (forall n, P (VNilPtrToArray n)) ->
  (forall fields, Forall (fun fx => P (snd fx)) fields -> P (VStruct fields)) ->
  (forall elems, Forall P elems -> P (VSlice elems)) ->
  (forall elems, Forall P elems -> P (VArray elems)) ->
  (forall entries, P (VMap entries)) ->
  (forall queued, P (VChan queued)) ->
  P VFunc ->
  (forall dynamic, P (VInterface dynamic)) ->
  P VUnsafePointer ->
  forall value, P value.
Proof.
  intros HInvalid HBool HInt HUint HFloat HComplex HString HNil HPtr HNilArray HStruct
    HSlice HArray HMap HChan HFunc HInterface HUnsafe.
  fix IH 1. intros value.
  destruct value as [| b | k i | k u | k f | k re im | s | pointee | n | fields
                    | elems | elems | entries | queued | | dynamic |].
  - exact HInvalid.
  - apply HBool.
  - apply HInt.
  - apply HUint.
  - apply HFloat.
  - apply HComplex.
  - apply HString.
  - destruct pointee as [pointee|]; [apply HPtr, IH | exact HNil].
  - apply HNilArray.
  - apply HStruct. induction fields as [|[f x] fields IHfields];
      constructor; [apply IH | exact IHfields].
  - apply HSlice. induction elems as [|x elems IHelems];
      constructor; [apply IH | exact IHelems].
  - apply HArray. induction elems as [|x elems IHelems];
      constructor; [apply IH | exact IHelems].
  - apply HMap.
  - apply HChan.
  - exact HFunc.
  - apply HInterface.
  - exact HUnsafe.
Qed.

(** ** What [marshalValue] writes *)

Lemma outcome_of_empty {A} (c : M A) (a : A) (out : list byte) :
  (forall e, c e = Returns a (e ++ out)) -> c [] = Returns a out.
Proof. intros H. exact (H []). Qed.

Lemma appends_scalar (value : Value) (s : string) :
  scalar_text value = Some s ->
  forall e, marshalValue value e
            = Returns None (e ++ uint8 SX_SCALAR :: uint8 (len s) :: bytes_of s).
Proof.
  intros Hs e. by_kind value; injection Hs as <-;
    try (destruct b); cbn; unfold Write; rewrite <- ?app_assoc; reflexivity.
Qed.

Lemma appends_intro (value : Value) (out : list byte) :
  (forall e, marshalValue value e = Returns None (e ++ out)) ->
  appends_encoding value.
Proof.
  intros H e. unfold encode. rewrite (H []), (H e). reflexivity.
Qed.

Lemma appends_panics (value : Value) :
  (forall e, marshalValue value e = Panics) -> appends_encoding value.
Proof.
  intros H e. unfold encode. rewrite (H []), (H e). reflexivity.
Qed.

Lemma fieldValue_in (fields : list (StructField * Value)) (f : StructField) :
  fieldValue fields f = VInvalid \/
  exists g, In (g, fieldValue fields f) fields /\ Name g = Name f.
Proof.
  unfold fieldValue, FieldByName.
  destruct (find _ fields) as [[g x]|] eqn:Hfind; [right | left; reflexivity].
  apply find_some in Hfind. destruct Hfind as [Hin Hname].
  exists g. split; [exact Hin | apply String.eqb_eq; exact Hname].
Qed.

Lemma appends_fieldValue (fields : list (StructField * Value)) (f : StructField) :
  Forall (fun fx => appends_encoding (snd fx)) fields ->
  appends_encoding (fieldValue fields f).
Proof.
  intros Hall. destruct (fieldValue_in fields f) as [-> | [g [Hin _]]].
  - apply appends_panics. reflexivity.
  - rewrite Forall_forall in Hall. exact (Hall _ Hin).
Qed.

(** The struct loop, given that the field values behave. *)
Lemma marshalFields_entries_under (fields : list (StructField * Value)) :
  Forall (fun fx => appends_encoding (snd fx)) fields ->
  forall rest totalSize e2,
    marshalFields Len marshalValue VInvalid fields rest totalSize e2 =
    match entries fields rest with
    | Some chunks =>
        Returns (None, totalSize + Z.of_nat (List.length chunks)) (e2 ++ List.concat chunks)
    | None => Panics
    end.
Proof.
  intros Hall. induction rest as [|[f x] rest IH]; intros totalSize e2.
  - cbn. rewrite Z.add_0_r, app_nil_r. reflexivity.
  - cbn [marshalFields entries]. fold (fieldValue fields f).
    pose proof (appends_fieldValue fields f Hall) as Hv.
    unfold skips. set (v := fieldValue fields f) in *.
    assert (Htail :
      bind (marshalValue v)
        (fun err => if isErr err then ret (err, totalSize + 1) else
           bind (binary_Write_uint32 (len (Name f)))
             (fun _ => bind (WriteString (Name f))
                (fun err => if isErr err then ret (err, totalSize + 1) else
                   marshalFields Len marshalValue VInvalid fields rest (totalSize + 1)))) e2
      = match encode v, entries fields rest with
        | Some venc, Some chunks =>
            Returns (None, totalSize + Z.of_nat (List.length ((venc ++ key_bytes f) :: chunks)))
              (e2 ++ List.concat ((venc ++ key_bytes f) :: chunks))
        | _, _ => Panics
        end).
    { unfold bind at 1. rewrite Hv. destruct (encode v) as [venc|]; [|reflexivity].
      cbn [isErr]. unfold binary_Write_uint32, WriteString. rewrite !bind_Write.
      cbn [isErr]. rewrite IH. destruct (entries fields rest) as [chunks|]; [|reflexivity].
      f_equal.
      - f_equal. cbn [List.length]. lia.
      - unfold key_bytes. cbn [List.concat]. rewrite <- !app_assoc. reflexivity. }
    destruct (omitempty f); cbn [andb].
    + destruct (Len v) as [n|]; [|reflexivity].
      cbn. destruct (n =? 0); [apply IH|].
      etransitivity; [exact Htail|].
      destruct (encode v), (entries fields rest); reflexivity.
    + cbn. etransitivity; [exact Htail|].
      destruct (encode v), (entries fields rest); reflexivity.
Qed.

Lemma marshalStruct_under (fields : list (StructField * Value)) :
  Forall (fun fx => appends_encoding (snd fx)) fields ->
  forall e,
    marshalValue (VStruct fields) e =
    match entries fields fields with
    | Some chunks =>
        Returns None
          (e ++ uint8 SX_HASH
             :: BigEndian_PutUint32 (uint32 (Z.of_nat (List.length chunks)))
             ++ List.concat chunks)
    | None => Panics
    end.
Proof.
  intros Hall e. rewrite dispatch_not_Ptr by reflexivity.
  change (dispatch (VStruct fields) e)
    with (marshalStruct Len marshalValue VInvalid fields e).
  unfold marshalStruct, binary_Write_uint8.
  rewrite bind_Write. cbn [isErr]. unfold bind at 1, on_fresh_state.
  rewrite (marshalFields_entries_under fields Hall).
  destruct (entries fields fields) as [chunks|]; [|reflexivity].
  cbn [isErr app]. unfold binary_Write_uint32. rewrite bind_Write. cbn [isErr].
  unfold Write. rewrite Z.add_0_l, <- !app_assoc. reflexivity.
Qed.

(** The slice loop, given that the elements behave. *)
Lemma marshalElems_under (elems : list Value) :
  Forall appends_encoding elems ->
  forall e,
    marshalElems marshalValue elems e =
    match encode_all elems with
    | Some chunks => Returns None (e ++ List.concat chunks)
    | None => Panics
    end.
Proof.
  induction 1 as [|elem elems Helem _ IH]; intros e.
  - cbn. rewrite app_nil_r. reflexivity.
  - cbn [marshalElems encode_all]. unfold bind. rewrite Helem.
    destruct (encode elem) as [c|]; [|reflexivity].
    cbn [isErr]. rewrite IH.
    destruct (encode_all elems) as [chunks|]; [|reflexivity].
    cbn [List.concat]. rewrite <- app_assoc. reflexivity.
Qed.

Lemma marshalSlice_under (elems : list Value) :
  Forall appends_encoding elems ->
  forall e,
    marshalSlice marshalValue elems e =
    match encode_all elems with
    | Some chunks =>
        Returns None
          (e ++ uint8 SX_ARRAY
             :: BigEndian_PutUint32 (uint32 (Z.of_nat (List.length elems)))
             ++ List.concat chunks)
    | None => Panics
    end.
Proof.
  intros Hall e. unfold marshalSlice, binary_Write_uint8, binary_Write_uint32.
  rewrite bind_Write. cbn [isErr]. rewrite bind_Write. cbn [isErr].
  rewrite (marshalElems_under elems Hall).
  destruct (encode_all elems) as [chunks|]; [|reflexivity].
  rewrite <- !app_assoc. reflexivity.
Qed.

Lemma appends_of_outcome (value : Value) (r : option (list byte)) :
  (forall e, marshalValue value e =
             match r with
             | Some out => Returns None (e ++ out)
             | None => Panics
             end) ->
  appends_encoding value.
Proof.
  intros H. destruct r as [out|]; [eapply appends_intro | apply appends_panics]; exact H.
Qed.

(** Every call of [marshalValue] appends the encoding of its argument and
    returns a nil error, or panics; it never returns a non-nil error. *)
Lemma marshalValue_appends (value : Value) : appends_encoding value.
Proof.
  assert (Hnothing : forall v, (forall e, marshalValue v e = Returns None e) ->
                               appends_encoding v).
  { intros v H. apply appends_intro with (out := []).
    intros e. rewrite app_nil_r. apply H. }
  induction value as [| b | k i | k u | k f | k re im | s | | pointee IH | n
                     | fields IH | elems IH | elems IH | entries | queued | | dynamic |]
    using Value_nested_ind;
    try (eapply appends_intro, appends_scalar; reflexivity);
    try (apply Hnothing; intros e; reflexivity).
  - apply appends_panics. reflexivity.
  - apply appends_panics. reflexivity.
  - apply appends_of_outcome
      with (r := if is_Ptr (Kind_of pointee) then Some [uint8 SX_REF]
                 else option_map (cons (uint8 SX_REF)) (encode pointee)).
    intros e. rewrite marshalValue_VPtr.
    destruct (is_Ptr (Kind_of pointee)); [reflexivity|].
    rewrite IH. destruct (encode pointee); cbn [option_map]; [|reflexivity].
    rewrite <- app_assoc. reflexivity.
  - apply appends_panics. reflexivity.
  - apply appends_of_outcome
      with (r := option_map
                   (fun chunks =>
                      uint8 SX_HASH
                        :: BigEndian_PutUint32 (uint32 (Z.of_nat (List.length chunks)))
                        ++ List.concat chunks)
                   (entries fields fields)).
    intros e. rewrite (marshalStruct_under fields IH).
    destruct (entries fields fields); reflexivity.
  - apply appends_of_outcome
      with (r := option_map
                   (fun chunks =>
                      uint8 SX_ARRAY
                        :: BigEndian_PutUint32 (uint32 (Z.of_nat (List.length elems)))
                        ++ List.concat chunks)
                   (encode_all elems)).
    intros e. change (marshalValue (VSlice elems) e)
      with (marshalSlice marshalValue elems e).
    rewrite (marshalSlice_under elems IH).
    destruct (encode_all elems); reflexivity.
  - apply appends_of_outcome
      with (r := option_map
                   (fun chunks =>
                      uint8 SX_ARRAY
                        :: BigEndian_PutUint32 (uint32 (Z.of_nat (List.length elems)))
                        ++ List.concat chunks)
                   (encode_all elems)).
    intros e. change (marshalValue (VArray elems) e)
      with (marshalSlice marshalValue elems e).
    rewrite (marshalSlice_under elems IH).
    destruct (encode_all elems); reflexivity.
Qed.

Lemma marshalValue_Returns (value : Value) (e e' : encodeState) (err : error) :
  marshalValue value e = Returns err e' ->
  err = None /\ exists out, encode value = Some out /\ e' = e ++ out.
Proof.
  rewrite marshalValue_appends. destruct (encode value) as [out|]; [|discriminate].
  intros H. injection H as <- <-. split; [reflexivity | exists out; split; reflexivity].
Qed.

Lemma encode_VStruct (fields : list (StructField * Value)) :
  encode (VStruct fields) =
  match entries fields fields with
  | Some chunks =>
      Some (uint8 SX_HASH
              :: BigEndian_PutUint32 (uint32 (Z.of_nat (List.length chunks)))
              ++ List.concat chunks)
  | None => None
  end.
Proof.
  unfold encode. rewrite marshalStruct_under.
  - destruct (entries fields fields); reflexivity.
  - apply Forall_forall. intros fx _. apply marshalValue_appends.
Qed.

Lemma encode_elems (elems : list Value) :
  encode (VSlice elems) =
  match encode_all elems with
  | Some chunks =>
      Some (uint8 SX_ARRAY
              :: BigEndian_PutUint32 (uint32 (Z.of_nat (List.length elems)))
              ++ List.concat chunks)
  | None => None
  end
  /\ encode (VArray elems) = encode (VSlice elems).
Proof.
  split; [|reflexivity].
  unfold encode. change (marshalValue (VSlice elems) [])
    with (marshalSlice marshalValue elems []).
  rewrite marshalSlice_under.
  - destruct (encode_all elems); reflexivity.
  - apply Forall_forall. intros x _. apply marshalValue_appends.
Qed.

Lemma encode_VPtr (pointee : Value) :
  encode (VPtr (Some pointee)) =
  if is_Ptr (Kind_of pointee) then Some [uint8 SX_REF]
  else option_map (cons (uint8 SX_REF)) (encode pointee).
Proof.
  unfold encode at 1. rewrite marshalValue_VPtr.
  destruct (is_Ptr (Kind_of pointee)); [reflexivity|].
  rewrite marshalValue_appends. destruct (encode pointee); reflexivity.
Qed.

Lemma encode_scalar (value : Value) (s : string) :
  scalar_text value = Some s ->
  encode value = Some (uint8 SX_SCALAR :: uint8 (len s) :: bytes_of s).
Proof.
  intros Hs. unfold encode. rewrite (appends_scalar value s Hs). reflexivity.
Qed.

(** The entries of a run that does not panic: one per kept field, in the
    order of the fields. *)
Lemma entries_kept (fields rest : list (StructField * Value)) (chunks : list (list byte)) :
  entries fields rest = Some chunks ->
  Forall2 (entry_of fields) (filter (fun fx => negb (skips fields (fst fx))) rest) chunks.
Proof.
  revert chunks. induction rest as [|[f x] rest IH]; intros chunks H.
  - injection H as <-. constructor.
  - cbn [entries] in H. cbn [filter fst].
    destruct (omitempty f && _); [discriminate|].
    destruct (skips fields f); cbn [negb]; [apply IH; exact H|].
    destruct (encode (fieldValue fields f)) as [venc|] eqn:Hv; [|discriminate].
    destruct (entries fields rest) as [chunks'|]; [|discriminate].
    injection H as <-. constructor; [|apply IH; reflexivity].
    exists venc. split; [exact Hv | reflexivity].
Qed.

Lemma length_PutUint32 (v : Z) : List.length (BigEndian_PutUint32 v) = 4%nat.
Proof. reflexivity. Qed.

Lemma length_kept (fields : list (StructField * Value)) :
  (List.length (kept fields) <= List.length fields)%nat.
Proof. apply filter_length_le. Qed.


(** ** Structs *)

(** C1. For a struct that is encoded (the call returns), the output is the
    SX_HASH tag, a 4-byte big-endian count and the entries written.  The
    count is [uint32] of the number of entries written, which is the number
    of fields left after the omit test and not the number of declared
    fields; read back from the four bytes it is that number, a struct type
    having fewer than 2^32 fields. *)
Theorem struct_count_is_entries_written
  (fields : list (StructField * Value)) (e e' : encodeState) (err : error) :
  marshalValue (VStruct fields) e = Returns err e' ->
  exists (count : list byte) (chunks : list (list byte)),
    e' = e ++ uint8 SX_HASH :: count ++ List.concat chunks /\
    Forall2 (entry_of fields) (kept fields) chunks /\
    List.length chunks = List.length (kept fields) /\
    count = BigEndian_PutUint32 (uint32 (Z.of_nat (List.length chunks))) /\
    List.length count = 4%nat /\
    (Z.of_nat (List.length fields) < 2 ^ 32 ->
     BigEndian_Uint32 count = Some (Z.of_nat (List.length chunks))).
Proof.
  intros Hrun.
  apply marshalValue_Returns in Hrun. destruct Hrun as [_ [out [Hout ->]]].
  rewrite encode_VStruct in Hout.
  destruct (entries fields fields) as [chunks|] eqn:Hentries; [|discriminate].
  injection Hout as <-.
  pose proof (entries_kept fields fields chunks Hentries) as Hkept.
  fold (kept fields) in Hkept.
  assert (Hlen : List.length chunks = List.length (kept fields)).
  { symmetry. eapply Forall2_length. exact Hkept. }
  exists (BigEndian_PutUint32 (uint32 (Z.of_nat (List.length chunks)))), chunks.
  repeat split; try assumption.
  intros Hsize. apply count_roundtrip. pose proof (length_kept fields). lia.
Qed.


Lemma entry_values (fields ks : list (StructField * Value)) (chunks : list (list byte)) :
  Forall2 (entry_of fields) ks chunks ->
  exists values : list (list byte),
    Forall2 (fun fx venc => encode (fieldValue fields (fst fx)) = Some venc) ks values /\
    chunks = map (fun p : (StructField * Value) * list byte =>
                    snd p ++ key_bytes (fst (fst p)))
               (combine ks values).
Proof.
  induction 1 as [|fx chunk ks chunks [venc [Hv ->]] _ [values [Hvalues ->]]].
  - exists []. split; [constructor | reflexivity].
  - exists (venc :: values). split; [constructor; assumption | reflexivity].
Qed.

Lemma len_nonneg (s : string) : 0 <= len s.
Proof. unfold len. lia. Qed.


Lemma fieldValue_other (before after : list (StructField * Value))
  (f g : StructField) (x : Value) :
  Name g <> Name f ->
  fieldValue (before ++ (f, x) :: after) g = fieldValue (before ++ after) g.
Proof.
  intros Hne. unfold fieldValue, FieldByName.
  induction before as [|[h y] before IH]; cbn [app find fst snd].
  - destruct (String.eqb (Name f) (Name g)) eqn:Hname; [|reflexivity].
    apply String.eqb_eq in Hname. congruence.
  - destruct (String.eqb (Name h) (Name g)); [reflexivity | exact IH].
Qed.

Lemma fieldValue_first (before after : list (StructField * Value))
  (f : StructField) (x : Value) :
  ~ In (Name f) (map (fun fx => Name (fst fx)) before) ->
  fieldValue (before ++ (f, x) :: after) f = x.
Proof.
  unfold fieldValue, FieldByName.
  induction before as [|[h y] before IH]; cbn [app find fst snd map]; intros Hnotin.
  - rewrite String.eqb_refl. reflexivity.
  - destruct (String.eqb (Name h) (Name f)) eqn:Hname.
    + apply String.eqb_eq in Hname. exfalso. apply Hnotin. left. exact Hname.
    + apply IH. intros Hin. apply Hnotin. right. exact Hin.
Qed.

Lemma skips_ext (fields fields' : list (StructField * Value)) (f : StructField) :
  fieldValue fields f = fieldValue fields' f -> skips fields f = skips fields' f.
Proof. intros H. unfold skips. rewrite H. reflexivity. Qed.

Lemma entries_ext (fields fields' rest : list (StructField * Value)) :
  (forall fx, In fx rest -> fieldValue fields (fst fx) = fieldValue fields' (fst fx)) ->
  entries fields rest = entries fields' rest.
Proof.
  induction rest as [|[f x] rest IH]; intros Hsame; [reflexivity|].
  cbn [entries].
  assert (Hf : fieldValue fields f = fieldValue fields' f)
    by (apply (Hsame (f, x)); left; reflexivity).
  rewrite (skips_ext fields fields' f Hf), Hf, IH; [reflexivity|].
  intros fx Hin. apply Hsame. right. exact Hin.
Qed.

Lemma entries_skip (fields before after : list (StructField * Value))
  (f : StructField) (x : Value) :
  skips fields f = true ->
  entries fields (before ++ (f, x) :: after) = entries fields (before ++ after).
Proof.
  intros Hskip. induction before as [|[g y] before IH]; cbn [app entries].
  - rewrite Hskip. unfold skips in Hskip.
    destruct (omitempty f); [|discriminate].
    destruct (Len (fieldValue fields f)); [reflexivity | discriminate].
  - rewrite IH. reflexivity.
Qed.

Lemma name_not_among (fields : list (StructField * Value)) (f : StructField)
  (fx : StructField * Value) :
  ~ In (Name f) (map (fun fx => Name (fst fx)) fields) ->
  In fx fields -> Name (fst fx) <> Name f.
Proof.
  intros Hnotin Hin Heq. apply Hnotin. rewrite <- Heq.
  apply (in_map (fun fx => Name (fst fx))). exact Hin.
Qed.

(** A field whose tag asks for [omitempty], whose length is zero and
    whose name no other field bears is skipped: the struct is encoded
    exactly as the struct without that field is (same count, same entries,
    and the same panic if another field panics), and the fields kept are
    those of the struct without it. *)
Lemma omitempty_field_is_skipped
  (before after : list (StructField * Value)) (f : StructField) (x : Value)
  (e : encodeState) :
  omitempty f = true ->
  Len x = Some 0 ->
  ~ In (Name f) (map (fun fx => Name (fst fx)) (before ++ after)) ->
  marshalValue (VStruct (before ++ (f, x) :: after)) e
  = marshalValue (VStruct (before ++ after)) e /\
  kept (before ++ (f, x) :: after) = kept (before ++ after).
Proof.
  intros Homit Hlen Hname.
  assert (Hown : fieldValue (before ++ (f, x) :: after) f = x).
  { apply fieldValue_first. intros Hin. apply Hname.
    rewrite map_app. apply in_or_app. left. exact Hin. }
  assert (Hskip : skips (before ++ (f, x) :: after) f = true).
  { unfold skips. rewrite Homit, Hown, Hlen. reflexivity. }
  assert (Hsame : forall fx, In fx (before ++ after) ->
            fieldValue (before ++ (f, x) :: after) (fst fx)
            = fieldValue (before ++ after) (fst fx)).
  { intros fx Hin. apply fieldValue_other.
    apply (name_not_among (before ++ after)); assumption. }
  split.
  - rewrite !marshalValue_appends, !encode_VStruct.
    rewrite (entries_skip _ before after f x Hskip).
    rewrite (entries_ext _ (before ++ after) (before ++ after) Hsame).
    reflexivity.
  - unfold kept. rewrite !filter_app. cbn [filter fst]. rewrite Hskip. cbn [negb].
    rewrite <- filter_app.
    rewrite <- (filter_app _ before after).
    apply filter_ext_in. intros fx Hin. f_equal. apply skips_ext, Hsame, Hin.
Qed.

(** C3, at a struct with two blank fields.  The loop fetches the value
    to test and to write by the field's name, and [FieldByName] finds the
    first field of that name: the second blank field, tagged [omitempty]
    and of length zero, is tested with the length of the first (an array
    of one element), is not skipped, and is written with the value of the
    first.  The struct is encoded with a count of two, not as the struct
    of the first field alone. *)
Theorem omitempty_field_of_repeated_name_is_written :
  omitempty blank_omit = true /\
  Len (VString EmptyString) = Some 0 /\
  marshalValue (VStruct blank_fields) []
  = Returns None ([x03; x00; x00; x00; x02] ++ blank_array_entry ++ blank_array_entry) /\
  marshalValue (VStruct [(blank_array, VArray [VInt KInt 0])]) []
  = Returns None ([x03; x00; x00; x00; x01] ++ blank_array_entry).
Proof.
  split; [reflexivity | split; [reflexivity | split]].
  - rewrite marshalValue_appends, encode_VStruct. reflexivity.
  - rewrite marshalValue_appends, encode_VStruct. reflexivity.
Qed.




(** ** Slices and arrays *)

Lemma encode_all_Forall2 (elems : list Value) (chunks : list (list byte)) :
  encode_all elems = Some chunks ->
  Forall2 (fun elem c => encode elem = Some c) elems chunks.
Proof.
  revert chunks. induction elems as [|elem elems IH]; intros chunks H.
  - injection H as <-. constructor.
  - cbn [encode_all] in H.
    destruct (encode elem) as [c|] eqn:Hc; [|discriminate].
    destruct (encode_all elems) as [chunks'|]; [|discriminate].
    injection H as <-. constructor; [exact Hc | apply IH; reflexivity].
Qed.

(** C5. A slice or array of [n] elements that is encoded is the SX_ARRAY
    tag, the four bytes of [uint32(n)] most significant first, and then the
    encodings of the elements in order with nothing between them; the four
    bytes read back as [n] when [n] is below 2^32.  With no element the
    value is encoded, as the tag and a zero count. *)
Theorem slice_is_tag_count_elements
  (value : Value) (elems : list Value) (e e' : encodeState) (err : error) :
  value = VSlice elems \/ value = VArray elems ->
  (marshalValue value e = Returns err e' ->
   exists (count : list byte) (chunks : list (list byte)),
     e' = e ++ uint8 SX_ARRAY :: count ++ List.concat chunks /\
     Forall2 (fun elem c => encode elem = Some c) elems chunks /\
     count = BigEndian_PutUint32 (uint32 (Z.of_nat (List.length elems))) /\
     List.length count = 4%nat /\
     (Z.of_nat (List.length elems) < 2 ^ 32 ->
      BigEndian_Uint32 count = Some (Z.of_nat (List.length elems)))) /\
  (elems = [] ->
   marshalValue value e = Returns None (e ++ [uint8 SX_ARRAY; x00; x00; x00; x00])).
Proof.
  intros Hkind.
  assert (Hsame : marshalValue value e = marshalValue (VSlice elems) e)
    by (destruct Hkind as [-> | ->]; reflexivity).
  rewrite Hsame. clear Hsame Hkind value. split.
  - intros Hrun.
    apply marshalValue_Returns in Hrun. destruct Hrun as [_ [out [Hout ->]]].
    rewrite (proj1 (encode_elems elems)) in Hout.
    destruct (encode_all elems) as [chunks|] eqn:Hall; [|discriminate].
    injection Hout as <-.
    exists (BigEndian_PutUint32 (uint32 (Z.of_nat (List.length elems)))), chunks.
    repeat split.
    + apply encode_all_Forall2. exact Hall.
    + apply count_roundtrip.
  - intros ->. rewrite marshalValue_appends, (proj1 (encode_elems [])).
    reflexivity.
Qed.

(** ** Scalars *)

(** The wire shape of a scalar whose text fits the length byte. *)
Lemma scalar_wire_shape (value : Value) (s : string) :
  scalar_text value = Some s ->
  len s < 256 ->
  exists lenbyte : byte,
    encode value = Some (uint8 SX_SCALAR :: lenbyte :: bytes_of s) /\
    byte_val lenbyte = Z.of_nat (List.length (bytes_of s)).
Proof.
  intros Hs Hsmall. exists (uint8 (len s)). split; [apply encode_scalar, Hs|].
  rewrite byte_val_uint8, length_bytes_of. fold (len s).
  apply Z.mod_small. split; [apply len_nonneg | exact Hsmall].
Qed.

(** The length byte of any scalar: the length of the text modulo 256,
    while the whole text follows. *)
Lemma scalar_length_byte (value : Value) (s : string) :
  scalar_text value = Some s ->
  encode value = Some (uint8 SX_SCALAR :: uint8 (len s) :: bytes_of s) /\
  byte_val (uint8 (len s)) = len s mod 256 /\
  Z.of_nat (List.length (bytes_of s)) = len s.
Proof.
  intros Hs. split; [apply encode_scalar, Hs | split].
  - apply byte_val_uint8.
  - rewrite length_bytes_of. reflexivity.
Qed.

(** The text of an integer reads back as the integer, and carries a sign
    exactly when the integer is negative. *)
Lemma FormatInt_reads_back (i : Z) :
  option_map Z.of_int (NilZero.int_of_string (FormatInt i)) = Some i.
Proof.
  unfold FormatInt. rewrite NilZero.isi.
  - cbn [option_map]. rewrite DecimalZ.of_to. reflexivity.
  - destruct i as [|p|p]; cbn; try discriminate.
    intros H. injection H as H. exact (DecimalPos.Unsigned.to_uint_nonnil p H).
  - destruct i as [|p|p]; cbn; try discriminate.
    intros H. injection H as H. exact (DecimalPos.Unsigned.to_uint_nonnil p H).
Qed.

Lemma FormatInt_sign (i : Z) :
  String.prefix "-" (FormatInt i) = (i <? 0).
Proof.
  unfold FormatInt. destruct i as [|p|p]; [reflexivity | |].
  - cbn [Z.to_int NilZero.string_of_int Z.ltb Z.compare].
    destruct (Pos.to_uint p); reflexivity.
  - cbn. destruct (NilZero.string_of_uint (Pos.to_uint p)); reflexivity.
Qed.

(** C6, at a string of 256 bytes.  [marshalString] writes the length
    byte [uint8(256)], which is zero, and then all 256 bytes of the
    string: the bytes that follow the length byte are not as many as it
    says. *)
Theorem string_of_256_bytes_has_length_byte_zero :
  marshalValue (VString (repeat_char "a" 256)) []
  = Returns None (uint8 SX_SCALAR :: x00 :: bytes_of (repeat_char "a" 256)) /\
  List.length (bytes_of (repeat_char "a" 256)) = 256%nat /\
  byte_val x00 = 0.
Proof.
  split; [|split].
  - rewrite (appends_scalar (VString (repeat_char "a" 256)) _ eq_refl). reflexivity.
  - rewrite length_bytes_of. reflexivity.
  - reflexivity.
Qed.

(** ** The header and pointers *)

Lemma marshal_header (v : iface) (e : encodeState) :
  marshal v e = marshalValue (ValueOf v) (e ++ [uint8 MAGIC; uint8 VERSION]).
Proof.
  unfold marshal, binary_Write_uint8. rewrite bind_Write. cbn [isErr].
  rewrite bind_Write. cbn [isErr]. rewrite <- app_assoc. reflexivity.
Qed.

Lemma Marshal_encode (v : iface) :
  Marshal v =
  match encode (ValueOf v) with
  | Some rest => Some (uint8 MAGIC :: uint8 VERSION :: rest, None)
  | None => None
  end.
Proof.
  unfold Marshal. rewrite marshal_header, marshalValue_appends.
  destruct (encode (ValueOf v)); reflexivity.
Qed.

(** The first byte of what [marshalValue] writes, if it writes anything,
    is one of the four tags. *)
Lemma encode_starts_with_tag (value : Value) (out : list byte) :
  encode value = Some out ->
  out = [] \/
  exists tag rest, out = uint8 tag :: rest /\
                   In tag [SX_ARRAY; SX_HASH; SX_REF; SX_SCALAR].
Proof.
  intros Hout.
  destruct value as [| b | k i | k u | k f | k re im | s | pointee | n | fields
                    | elems | elems | entries | queued | | dynamic |];
    try (injection Hout as <-; left; reflexivity);
    try discriminate;
    try (erewrite encode_scalar in Hout by reflexivity; injection Hout as <-;
         right; eexists _, _; split; [reflexivity | cbn; tauto]).
  - destruct pointee as [pointee|]; [|discriminate].
    rewrite encode_VPtr in Hout.
    destruct (is_Ptr (Kind_of pointee)).
    + injection Hout as <-. right. eexists _, _; split; [reflexivity | cbn; tauto].
    + destruct (encode pointee); [|discriminate]. injection Hout as <-.
      right. eexists _, _; split; [reflexivity | cbn; tauto].
  - rewrite encode_VStruct in Hout.
    destruct (entries fields fields); [|discriminate]. injection Hout as <-.
    right. eexists _, _; split; [reflexivity | cbn; tauto].
  - rewrite (proj1 (encode_elems elems)) in Hout.
    destruct (encode_all elems); [|discriminate]. injection Hout as <-.
    right. eexists _, _; split; [reflexivity | cbn; tauto].
  - rewrite (proj2 (encode_elems elems)), (proj1 (encode_elems elems)) in Hout.
    destruct (encode_all elems); [|discriminate]. injection Hout as <-.
    right. eexists _, _; split; [reflexivity | cbn; tauto].
Qed.

Lemma dynamic_value_not_Interface (value : Value) :
  Kind_of value <> Interface -> dynamic_value value = value.
Proof. intros Hk. by_kind value; try reflexivity. contradiction Hk. reflexivity. Qed.

(** C8. [marshal] writes the magic byte and the version byte before it
    hands the value to [marshalValue], whatever the value, and the output
    of [Marshal] is these two bytes followed by what [marshalValue]
    writes.  [marshalValue] never writes them again: behind a pointer it
    writes the SX_REF tag and at once the pointee, for a slice or an array
    the tag, the count and at once one element after the other, for a
    struct the tag, the count and for each kept field at once its value
    and then its key; and what it writes for a value, nested or not,
    never begins with the two bytes of the header. *)
Theorem header_first_and_once (v : iface) :
  (forall e, marshal v e = marshalValue (ValueOf v) (e ++ [uint8 MAGIC; uint8 VERSION])) /\
  (forall out err, Marshal v = Some (out, err) ->
     exists rest, out = uint8 MAGIC :: uint8 VERSION :: rest /\
                  encode (ValueOf v) = Some rest) /\
  (forall value out rest, encode value = Some out ->
     out <> uint8 MAGIC :: uint8 VERSION :: rest) /\
  (forall pointee,
     encode (VPtr (Some pointee)) =
     if is_Ptr (Kind_of pointee) then Some [uint8 SX_REF]
     else match encode pointee with
          | Some out => Some (uint8 SX_REF :: out)
          | None => None
          end) /\
  (forall value elems out,
     value = VSlice elems \/ value = VArray elems ->
     encode value = Some out ->
     exists chunks : list (list byte),
       Forall2 (fun elem c => encode elem = Some c) elems chunks /\
       out = uint8 SX_ARRAY
               :: BigEndian_PutUint32 (uint32 (Z.of_nat (List.length elems)))
               ++ List.concat chunks) /\
  (forall fields out,
     encode (VStruct fields) = Some out ->
     exists values : list (list byte),
       Forall2 (fun fx venc => encode (fieldValue fields (fst fx)) = Some venc)
         (kept fields) values /\
       out = uint8 SX_HASH
               :: BigEndian_PutUint32 (uint32 (Z.of_nat (List.length (kept fields))))
               ++ List.concat
                    (map (fun p : (StructField * Value) * list byte =>
                            snd p ++ key_bytes (fst (fst p)))
                       (combine (kept fields) values))).
Proof.
  split; [|split; [|split; [|split; [|split]]]].
  - apply marshal_header.
  - intros out err H. rewrite Marshal_encode in H.
    destruct (encode (ValueOf v)) as [rest|]; [|discriminate].
    injection H as <- _. exists rest. split; reflexivity.
  - intros value out rest Hout Heq.
    destruct (encode_starts_with_tag value out Hout) as [-> | [tag [tl [-> Htag]]]];
      [discriminate|].
    injection Heq as Hbyte _.
    cbn in Htag. destruct Htag as [<- | [<- | [<- | [<- | []]]]]; discriminate Hbyte.
  - intros pointee. rewrite encode_VPtr.
    destruct (is_Ptr (Kind_of pointee)); [reflexivity|].
    destruct (encode pointee); reflexivity.
  - intros value elems out Hkind Hout.
    assert (Hs : encode (VSlice elems) = Some out).
    { destruct Hkind as [-> | ->]; [exact Hout|].
      rewrite <- (proj2 (encode_elems elems)). exact Hout. }
    rewrite (proj1 (encode_elems elems)) in Hs.
    destruct (encode_all elems) as [chunks|] eqn:Hall; [|discriminate].
    injection Hs as <-. exists chunks.
    split; [apply encode_all_Forall2; exact Hall | reflexivity].
  - intros fields out Hout. rewrite encode_VStruct in Hout.
    destruct (entries fields fields) as [chunks|] eqn:Hentries; [|discriminate].
    injection Hout as <-.
    pose proof (entries_kept fields fields chunks Hentries) as Hkept.
    fold (kept fields) in Hkept.
    destruct (entry_values fields (kept fields) chunks Hkept) as [values [Hvalues ->]].
    exists values. split; [exact Hvalues|].
    rewrite length_map, length_combine.
    rewrite <- (Forall2_length Hvalues), Nat.min_id. reflexivity.
Qed.

(** C7, as the code has it.  For a pointer whose pointee is neither a
    pointer nor of an interface type and is encoded, the output is the
    header, the SX_REF tag, and then byte for byte what encoding the
    pointee directly gives after its own header.  (The switch of
    [marshalValue] has no case for a pointee that is itself a pointer or
    an interface: neither is walked, while [Marshal] on an interface
    encodes what it holds.) *)
Theorem pointer_is_REF_then_pointee
  (pointee : Value) (out : list byte) (err : error) :
  is_Ptr (Kind_of pointee) = false ->
  Kind_of pointee <> Interface ->
  Marshal (Some pointee) = Some (out, err) ->
  firstn 2 out = [uint8 MAGIC; uint8 VERSION] /\
  Marshal (Some (VPtr (Some pointee)))
  = Some (firstn 2 out ++ uint8 SX_REF :: skipn 2 out, err).
Proof.
  intros Hkind Hiface Hrun. rewrite Marshal_encode in Hrun. cbn [ValueOf] in Hrun.
  rewrite (dynamic_value_not_Interface pointee Hiface) in Hrun.
  rewrite Marshal_encode. cbn [ValueOf dynamic_value]. rewrite encode_VPtr, Hkind.
  destruct (encode pointee) as [rest|]; [|discriminate].
  injection Hrun as <- <-. split; reflexivity.
Qed.

(** ** Kinds without a case *)

(** C9, as the code has it.  A value of a kind the switch has no case for
    (complex number, channel, function, interface, map, unsafe pointer)
    makes [marshalValue] write nothing and return a nil error, and the
    encoding of what surrounds it goes on: in a slice it is counted as an
    element that takes no bytes. *)
Theorem unsupported_kind_writes_nothing (value : Value) :
  unsupported (Kind_of value) = true ->
  (forall e, marshalValue value e = Returns None e) /\
  encode value = Some [] /\
  (forall before after : list Value,
     encode (VSlice (before ++ value :: after)) =
     match encode_all (before ++ after) with
     | Some chunks =>
         Some (uint8 SX_ARRAY
                 :: BigEndian_PutUint32
                      (uint32 (Z.of_nat (List.length (before ++ after)) + 1))
                 ++ List.concat chunks)
     | None => None
     end).
Proof.
  intros Hkind.
  assert (Hrun : forall e, marshalValue value e = Returns None e)
    by (intros e; by_kind value; reflexivity).
  assert (Henc : encode value = Some []) by (unfold encode; rewrite Hrun; reflexivity).
  split; [exact Hrun | split; [exact Henc|]].
  intros before after. rewrite (proj1 (encode_elems _)).
  assert (Hall : encode_all (before ++ value :: after) =
                 match encode_all (before ++ after) with
                 | Some chunks => Some (firstn (List.length before) chunks ++ []
                                          :: skipn (List.length before) chunks)
                 | None => None
                 end).
  { induction before as [|x before IH]; cbn [app encode_all List.length firstn skipn].
    - rewrite Henc. destruct (encode_all after); reflexivity.
    - rewrite IH. destruct (encode x); [|reflexivity].
      destruct (encode_all (before ++ after)); reflexivity. }
  rewrite Hall. destruct (encode_all (before ++ after)) as [chunks|]; [|reflexivity].
  rewrite concat_app. cbn [List.concat app]. rewrite <- concat_app, firstn_skipn.
  rewrite !length_app. cbn [List.length].
  replace (Z.of_nat (List.length before + S (List.length after)))
    with (Z.of_nat (List.length before + List.length after) + 1) by lia.
  reflexivity.
Qed.

(** ** Encoder.Encode *)

(** C10. When [Marshal] returns bytes for a value and the writer takes
    them without error, [Encode] hands the writer exactly those bytes and
    returns nil, whatever the encoder's buffer held from earlier calls:
    the buffer is emptied first and holds the same bytes afterwards. *)
Theorem Encode_writes_what_Marshal_returns
  (enc : Encoder) (v : iface) (out : list byte) (merr : error) (w' : Writer) :
  Marshal v = Some (out, merr) ->
  Writer_Write (enc_w enc) out = (w', None) ->
  Encode enc v
  = Some ({| enc_w := w'; enc_e := out; enc_err := enc_err enc |}, None) /\
  (forall earlier : encodeState,
     Encode {| enc_w := enc_w enc; enc_e := earlier; enc_err := enc_err enc |} v
     = Encode enc v).
Proof.
  intros Hrun Hwrite. unfold Marshal in Hrun. split.
  - unfold Encode. destruct (marshal v []) as [err e|]; [|discriminate].
    injection Hrun as -> ->. rewrite Hwrite. reflexivity.
  - intros earlier. reflexivity.
Qed.

(** [Encode] and [Marshal] panic together. *)
Lemma Encode_panics_with_Marshal (enc : Encoder) (v : iface) :
  Marshal v = None <-> Encode enc v = None.
Proof.
  unfold Marshal, Encode. destruct (marshal v []) as [err e|].
  - destruct (Writer_Write (enc_w enc) e). split; discriminate.
  - split; reflexivity.
Qed.

(** ** When the encoder returns, and when it panics *)

Lemma scalar_kind_text (value : Value) :
  scalar_kind (Kind_of value) = true -> exists s, scalar_text value = Some s.
Proof. intros Hk. by_kind value; eexists; reflexivity. Qed.

Lemma entries_None_iff (fields rest : list (StructField * Value)) :
  entries fields rest = None <->
  exists fx, In fx rest /\
    ((omitempty (fst fx) = true /\ Len (fieldValue fields (fst fx)) = None) \/
     (skips fields (fst fx) = false /\ encode (fieldValue fields (fst fx)) = None)).
Proof.
  induction rest as [|[f x] rest IH].
  - split; [discriminate | intros [fx [[] _]]].
  - cbn [entries]. split.
    + destruct (omitempty f) eqn:Ho; cbn [andb].
      * destruct (Len (fieldValue fields f)) as [n|] eqn:Hl.
        -- destruct (skips fields f) eqn:Hs.
           ++ intros H. apply IH in H. destruct H as [fx [Hin H]].
              exists fx. split; [right; exact Hin | exact H].
           ++ destruct (encode (fieldValue fields f)) eqn:He.
              ** destruct (entries fields rest); [discriminate|].
                 intros _. destruct (proj1 IH eq_refl) as [fx [Hin H]].
                 exists fx. split; [right; exact Hin | exact H].
              ** intros _. exists (f, x). split; [left; reflexivity|].
                 right. split; assumption.
        -- intros _. exists (f, x). split; [left; reflexivity|].
           left. split; assumption.
      * destruct (skips fields f) eqn:Hs.
        -- unfold skips in Hs. rewrite Ho in Hs. discriminate.
        -- destruct (encode (fieldValue fields f)) eqn:He.
           ++ destruct (entries fields rest); [discriminate|].
              intros _. destruct (proj1 IH eq_refl) as [fx [Hin H]].
              exists fx. split; [right; exact Hin | exact H].
           ++ intros _. exists (f, x). split; [left; reflexivity|].
              right. split; assumption.
    + intros [fx [[<- | Hin] H]]; cbn [fst] in *.
      * destruct H as [[Ho Hl] | [Hs He]].
        -- rewrite Ho, Hl. reflexivity.
        -- rewrite Hs, He.
           destruct (omitempty f && _); reflexivity.
      * assert (Hrest : entries fields rest = None)
          by (apply IH; exists fx; split; assumption).
        rewrite Hrest.
        destruct (omitempty f && _); [reflexivity|].
        destruct (skips fields f); [reflexivity|].
        destruct (encode (fieldValue fields f)); reflexivity.
Qed.

Lemma encode_all_None_iff (elems : list Value) :
  encode_all elems = None <-> exists elem, In elem elems /\ encode elem = None.
Proof.
  induction elems as [|x elems IH]; cbn [encode_all].
  - split; [discriminate | intros [elem [[] _]]].
  - split.
    + destruct (encode x) eqn:Hx.
      * destruct (encode_all elems); [discriminate|].
        intros _. destruct (proj1 IH eq_refl) as [elem [Hin He]].
        exists elem. split; [right; exact Hin | exact He].
      * intros _. exists x. split; [left; reflexivity | exact Hx].
    + intros [elem [[<- | Hin] He]].
      * rewrite He. reflexivity.
      * assert (Hrest : encode_all elems = None)
          by (apply IH; exists elem; split; assumption).
        rewrite Hrest. destruct (encode x); reflexivity.
Qed.

Lemma encodable_encodes (value : Value) : encodable value -> encode value <> None.
Proof.
  induction 1 as [value Hk | value Hk | pointee Hk | pointee Hk _ IH
                 | fields Hlen _ IH | elems _ IH | elems _ IH].
  - destruct (scalar_kind_text value Hk) as [s Hs].
    rewrite (encode_scalar value s Hs). discriminate.
  - by_kind value; discriminate.
  - rewrite encode_VPtr, Hk. discriminate.
  - rewrite encode_VPtr, Hk. destruct (encode pointee); [discriminate | contradiction].
  - rewrite encode_VStruct.
    destruct (entries fields fields) eqn:He; [discriminate|].
    apply entries_None_iff in He.
    destruct He as [fx [Hin [[Ho Hl] | [Hs Hnone]]]].
    + exfalso. exact (Hlen fx Hin Ho Hl).
    + exfalso. exact (IH fx Hin Hs Hnone).
  - rewrite (proj1 (encode_elems elems)).
    destruct (encode_all elems) eqn:He; [discriminate|].
    apply encode_all_None_iff in He. destruct He as [elem [Hin Hnone]].
    exfalso. exact (IH elem Hin Hnone).
  - rewrite (proj2 (encode_elems elems)), (proj1 (encode_elems elems)).
    destruct (encode_all elems) eqn:He; [discriminate|].
    apply encode_all_None_iff in He. destruct He as [elem [Hin Hnone]].
    exfalso. exact (IH elem Hin Hnone).
Qed.

Lemma encodes_encodable (value : Value) : encode value <> None -> encodable value.
Proof.
  induction value as [| b | k i | k u | k f | k re im | s | | pointee IH | n
                     | fields IH | elems IH | elems IH | entries | queued | | dynamic |]
    using Value_nested_ind; intros Henc;
    try (apply encodable_scalar; destruct k; reflexivity);
    try (apply encodable_scalar; reflexivity);
    try (apply encodable_unsupported; reflexivity);
    try (exfalso; apply Henc; reflexivity).
  - apply encodable_unsupported. destruct k; reflexivity.
  - destruct (is_Ptr (Kind_of pointee)) eqn:Hk.
    + apply encodable_pointer_to_pointer. exact Hk.
    + apply encodable_pointer; [exact Hk|]. apply IH.
      rewrite encode_VPtr, Hk in Henc.
      destruct (encode pointee); [discriminate | exfalso; apply Henc; reflexivity].
  - rewrite encode_VStruct in Henc.
    assert (Hsome : entries fields fields <> None).
    { destruct (entries fields fields); [discriminate | exfalso; apply Henc; reflexivity]. }
    apply encodable_struct.
    + intros fx Hin Ho Hl. apply Hsome. apply entries_None_iff.
      exists fx. split; [exact Hin | left; split; assumption].
    + intros fx Hin Hs.
      assert (Hv : encode (fieldValue fields (fst fx)) <> None).
      { intros Hnone. apply Hsome. apply entries_None_iff.
        exists fx. split; [exact Hin | right; split; assumption]. }
      destruct (fieldValue_in fields (fst fx)) as [Hzero | [g [Hg _]]].
      * rewrite Hzero in Hv. exfalso. apply Hv. reflexivity.
      * rewrite Forall_forall in IH. exact (IH _ Hg Hv).
  - rewrite (proj1 (encode_elems elems)) in Henc.
    apply encodable_slice. intros elem Hin.
    rewrite Forall_forall in IH. apply (IH elem Hin).
    intros Hnone. apply Henc.
    assert (Hall : encode_all elems = None)
      by (apply encode_all_None_iff; exists elem; split; assumption).
    rewrite Hall. reflexivity.
  - rewrite (proj2 (encode_elems elems)), (proj1 (encode_elems elems)) in Henc.
    apply encodable_array. intros elem Hin.
    rewrite Forall_forall in IH. apply (IH elem Hin).
    intros Hnone. apply Henc.
    assert (Hall : encode_all elems = None)
      by (apply encode_all_None_iff; exists elem; split; assumption).
    rewrite Hall. reflexivity.
Qed.

(** X1. [Marshal] returns, with a nil error, exactly on the arguments
    whose dynamic value can be walked without a panic: no zero Value or
    nil pointer meets [value.Type()], and every field tagged [omitempty]
    has a length at the [Len] call of line 193 (a string, slice, array,
    channel, map or pointer to an array).  On every other argument, nil
    among them, it panics. *)
Theorem Marshal_returns_iff_encodable (v : iface) :
  (exists out, Marshal v = Some (out, None)) <-> encodable (ValueOf v).
Proof.
  rewrite Marshal_encode. split.
  - intros [out Hout]. apply encodes_encodable.
    destruct (encode (ValueOf v)); [discriminate | discriminate Hout].
  - intros Henc. apply encodable_encodes in Henc.
    destruct (encode (ValueOf v)) as [rest|]; [|contradiction].
    eexists. reflexivity.
Qed.

(** X2. A call of [marshalValue] that returns has returned a nil error,
    has left the bytes already in the buffer as they were, and has
    appended bytes that do not depend on what the buffer held. *)
Theorem marshalValue_only_appends
  (value : Value) (e e' : encodeState) (err : error) :
  marshalValue value e = Returns err e' ->
  err = None /\
  exists out, e' = e ++ out /\
              forall e0, marshalValue value e0 = Returns None (e0 ++ out).
Proof.
  intros Hrun. pose proof (marshalValue_appends value) as Happ.
  rewrite Happ in Hrun. destruct (encode value) as [out|] eqn:Hout; [|discriminate].
  injection Hrun as <- <-. split; [reflexivity|].
  exists out. split; [reflexivity|].
  intros e0. rewrite Happ, Hout. reflexivity.
Qed.

(** X3. A struct with a field tagged [omitempty] whose value has no
    length (an int, a bool, a struct, a pointer to anything but an
    array, ...) makes the encoder panic, at the [fieldValue.Len()] of
    line 193 if not before. *)
Theorem omitempty_on_lengthless_field_panics
  (fields : list (StructField * Value)) (f : StructField) (x : Value)
  (e : encodeState) :
  In (f, x) fields ->
  omitempty f = true ->
  Len (fieldValue fields f) = None ->
  marshalValue (VStruct fields) e = Panics.
Proof.
  intros Hin Ho Hl. rewrite marshalValue_appends, encode_VStruct.
  assert (Hnone : entries fields fields = None).
  { apply entries_None_iff. exists (f, x). split; [exact Hin|].
    left. split; assumption. }
  rewrite Hnone. reflexivity.
Qed.

Lemma entries_all_skipped (fields rest : list (StructField * Value)) :
  (forall fx, In fx rest -> skips fields (fst fx) = true) ->
  entries fields rest = Some [].
Proof.
  induction rest as [|[f x] rest IH]; intros Hall; [reflexivity|].
  cbn [entries].
  assert (Hs : skips fields f = true) by (apply (Hall (f, x)); left; reflexivity).
  rewrite Hs. unfold skips in Hs.
  destruct (omitempty f); [|discriminate].
  destruct (Len (fieldValue fields f)); [|discriminate].
  cbn [andb]. apply IH. intros fx Hin. apply Hall. right. exact Hin.
Qed.

(** X4. A struct all of whose fields are skipped by the omit test is
    encoded as the empty hash: the tag and a zero count. *)
Theorem struct_of_skipped_fields_is_empty_hash
  (fields : list (StructField * Value)) (e : encodeState) :
  (forall fx, In fx fields -> skips fields (fst fx) = true) ->
  marshalValue (VStruct fields) e
  = Returns None (e ++ [uint8 SX_HASH; x00; x00; x00; x00]).
Proof.
  intros Hall. rewrite marshalValue_appends, encode_VStruct.
  rewrite (entries_all_skipped fields fields Hall). reflexivity.
Qed.

(** X5. The encoding keeps the text of a scalar and not its kind: two
    scalars with the same text (the integer 1234, the unsigned 1234 and
    the string "1234"; true and 1) are written as the same bytes. *)
Theorem scalars_of_equal_text_encode_alike
  (value value' : Value) (s : string) (e : encodeState) :
  scalar_text value = Some s ->
  scalar_text value' = Some s ->
  marshalValue value e = marshalValue value' e.
Proof.
  intros Hs Hs'.
  rewrite (appends_scalar value s Hs), (appends_scalar value' s Hs').
  reflexivity.
Qed.

Lemma bytes_of_inj (s s' : string) : bytes_of s = bytes_of s' -> s = s'.
Proof.
  unfold bytes_of. intros H.
  rewrite <- (string_of_list_byte_of_string s), <- (string_of_list_byte_of_string s').
  rewrite H. reflexivity.
Qed.

Lemma FormatInt_inj (i j : Z) : FormatInt i = FormatInt j -> i = j.
Proof.
  intros H. pose proof (FormatInt_reads_back i) as Hi.
  rewrite H, FormatInt_reads_back in Hi. injection Hi as <-. reflexivity.
Qed.

(** X6. Strings are written without loss, and so are integers: two
    strings with the same encoding are the same string (also beyond 255
    bytes, where the length byte has wrapped), and two signed integers
    with the same encoding are the same integer. *)
Theorem string_and_int_encodings_are_injective :
  (forall s s' : string, encode (VString s) = encode (VString s') -> s = s') /\
  (forall (k k' : IntKind) (i j : Z),
     encode (VInt k i) = encode (VInt k' j) -> i = j).
Proof.
  split.
  - intros s s' H.
    rewrite (encode_scalar (VString s) s eq_refl),
            (encode_scalar (VString s') s' eq_refl) in H.
    injection H as _ H. apply bytes_of_inj. exact H.
  - intros k k' i j H.
    rewrite (encode_scalar (VInt k i) _ eq_refl),
            (encode_scalar (VInt k' j) _ eq_refl) in H.
    injection H as _ H. apply FormatInt_inj, bytes_of_inj. exact H.
Qed.

(** X7. A pointer is followed once and no further: for a pointer to a
    pointer, nil or not, [Marshal] returns the header and the SX_REF tag
    alone, whatever lies behind the inner pointer. *)
Theorem pointer_to_pointer_is_REF_alone (inner : option Value) :
  Marshal (Some (VPtr (Some (VPtr inner))))
  = Some ([uint8 MAGIC; uint8 VERSION; uint8 SX_REF], None).
Proof.
  rewrite Marshal_encode. cbn [ValueOf dynamic_value]. rewrite encode_VPtr. reflexivity.
Qed.

(** X8. The length byte of a scalar is the number of bytes of text that
    follow it exactly when the text is shorter than 256 bytes; in any
    case it is that number modulo 256 and the whole text follows. *)
Theorem scalar_length_byte_exact_iff_short (value : Value) (s : string) :
  scalar_text value = Some s ->
  exists lenbyte : byte,
    encode value = Some (uint8 SX_SCALAR :: lenbyte :: bytes_of s) /\
    byte_val lenbyte = Z.of_nat (List.length (bytes_of s)) mod 256 /\
    (byte_val lenbyte = Z.of_nat (List.length (bytes_of s)) <-> len s < 256).
Proof.
  intros Hs. exists (uint8 (len s)).
  split; [apply encode_scalar, Hs|].
  rewrite byte_val_uint8, length_bytes_of. fold (len s).
  split; [reflexivity|].
  pose proof (len_nonneg s) as Hpos. split.
  - intros H. pose proof (Z.mod_pos_bound (len s) 256 ltac:(lia)). lia.
  - intros H. apply Z.mod_small. lia.
Qed.

(** ** Encoder.Encode, call after call *)

(** X9. Whenever [Encode] returns, it has passed the writer exactly the
    bytes [Marshal] returns for the value, and the error it returns is the
    writer's: nil when the write succeeded, and otherwise the writer's
    error, which it also stores in [enc.err].  A successful call leaves an
    error stored by an earlier call in place. *)
Theorem Encode_returns_the_writers_error
  (enc enc' : Encoder) (v : iface) (err : error) :
  Encode enc v = Some (enc', err) ->
  exists out : list byte,
    Marshal v = Some (out, None) /\
    Writer_Write (enc_w enc) out = (enc_w enc', err) /\
    enc_e enc' = out /\
    enc_err enc' = (if isErr err then err else enc_err enc).
Proof.
  unfold Encode. intros H. rewrite Marshal_encode.
  rewrite marshal_header, marshalValue_appends in H.
  destruct (encode (ValueOf v)) as [rest|]; [|discriminate].
  cbn [app] in H.
  destruct (Writer_Write (enc_w enc) (uint8 MAGIC :: uint8 VERSION :: rest))
    as [w werr] eqn:Hw.
  injection H as <- <-. cbn [enc_w enc_e enc_err].
  exists (uint8 MAGIC :: uint8 VERSION :: rest).
  repeat split. exact Hw.
Qed.

(** X10. Two calls of [Encode] on one encoder hand the writer the bytes
    of [Marshal] for the first value and then those for the second, each
    with its own header: the encoder writes a header per call, not per
    stream. *)
Theorem Encode_twice_writes_two_headers
  (w w1 w2 : Writer) (v1 v2 : iface) (out1 out2 : list byte) (err1 err2 : error) :
  Marshal v1 = Some (out1, err1) ->
  Marshal v2 = Some (out2, err2) ->
  Writer_Write w out1 = (w1, None) ->
  Writer_Write w1 out2 = (w2, None) ->
  exists enc1 enc2 : Encoder,
    Encode (NewEncoder w) v1 = Some (enc1, None) /\
    Encode enc1 v2 = Some (enc2, None) /\
    enc_w enc1 = w1 /\ enc_w enc2 = w2 /\ enc_err enc2 = None /\
    firstn 2 out1 = [uint8 MAGIC; uint8 VERSION] /\
    firstn 2 out2 = [uint8 MAGIC; uint8 VERSION].
Proof.
  intros H1 H2 Hw1 Hw2.
  exists {| enc_w := w1; enc_e := out1; enc_err := None |},
         {| enc_w := w2; enc_e := out2; enc_err := None |}.
  unfold Marshal in H1, H2.
  assert (Hh1 : firstn 2 out1 = [uint8 MAGIC; uint8 VERSION]).
  { rewrite marshal_header, marshalValue_appends in H1.
    destruct (encode (ValueOf v1)); [|discriminate]. injection H1 as <- _. reflexivity. }
  assert (Hh2 : firstn 2 out2 = [uint8 MAGIC; uint8 VERSION]).
  { rewrite marshal_header, marshalValue_appends in H2.
    destruct (encode (ValueOf v2)); [|discriminate]. injection H2 as <- _. reflexivity. }
  unfold Encode, NewEncoder. cbn [enc_w enc_e enc_err].
  destruct (marshal v1 []) as [e1 b1|]; [|discriminate]. injection H1 as -> _.
  destruct (marshal v2 []) as [e2 b2|]; [|discriminate]. injection H2 as -> _.
  rewrite Hw1, Hw2. cbn [isErr]. repeat split; assumption.
Qed.

(** ** The omit directive *)

Lemma Split_comma_nonempty (s : string) : Split_comma s <> [].
Proof.
  destruct s as [|c s]; cbn [Split_comma]; [discriminate|].
  destruct (Split_comma s); [discriminate|].
  destruct (Ascii.eqb c ","%char); discriminate.
Qed.

Lemma Split_comma_first (s opt : string) (opts : list string) :
  Split_comma s = opt :: opts ->
  s = opt \/ exists rest, s = (opt ++ String ","%char rest)%string.
Proof.
  revert opt opts. induction s as [|c s IH]; intros opt opts H.
  - injection H as <- _. left. reflexivity.
  - cbn [Split_comma] in H.
    destruct (Split_comma s) as [|piece pieces] eqn:Hs.
    + exfalso. exact (Split_comma_nonempty s Hs).
    + destruct (Ascii.eqb c ","%char) eqn:Hc.
      * apply Ascii.eqb_eq in Hc. subst c. injection H as <- _.
        right. exists s. reflexivity.
      * injection H as <- _.
        destruct (IH piece pieces eq_refl) as [-> | [rest ->]].
        -- left. reflexivity.
        -- right. exists rest. reflexivity.
Qed.

(** X11. Line 193 takes a field for [omitempty] exactly when the value of
    its [storable] tag is "omitempty" or begins with "omitempty,": the
    option counts only in first place, and a field without the tag is
    never omitted. *)
Theorem omitempty_iff_first_option (f : StructField) :
  omitempty f = true <->
  Tag_Get (Tag f) "storable" = "omitempty"%string \/
  exists rest, Tag_Get (Tag f) "storable" = ("omitempty," ++ rest)%string.
Proof.
  unfold omitempty. split.
  - destruct (Split_comma (Tag_Get (Tag f) "storable")) as [|opt opts] eqn:Hs;
      [discriminate|].
    intros Hopt. apply String.eqb_eq in Hopt. subst opt.
    destruct (Split_comma_first _ _ _ Hs) as [H | [rest H]].
    + left. exact H.
    + right. exists rest. exact H.
  - intros [-> | [rest ->]]; [reflexivity|].
    cbn. destruct (Split_comma rest) eqn:Hs; [|reflexivity].
    exfalso. exact (Split_comma_nonempty rest Hs).
Qed.

(** ** Counts and entries in place *)

Lemma Uint32_of_count (n : Z) (rest : list byte) :
  BigEndian_Uint32 (firstn 4 (BigEndian_PutUint32 (uint32 n) ++ rest))
  = Some (n mod 2 ^ 32).
Proof.
  change (firstn 4 (BigEndian_PutUint32 (uint32 n) ++ rest))
    with (BigEndian_PutUint32 (uint32 n)).
  apply Uint32_PutUint32, uint32_range.
Qed.

(** X12. In the output of [Marshal] for a slice, an array or a struct,
    bytes 3 to 6 (after the header and the tag) read back big-endian as
    the number of elements, or of kept fields, modulo 2^32. *)
Theorem count_field_reads_back_modulo :
  (forall elems out err,
     Marshal (Some (VSlice elems)) = Some (out, err) \/
     Marshal (Some (VArray elems)) = Some (out, err) ->
     BigEndian_Uint32 (firstn 4 (skipn 3 out))
     = Some (Z.of_nat (List.length elems) mod 2 ^ 32)) /\
  (forall fields out err,
     Marshal (Some (VStruct fields)) = Some (out, err) ->
     BigEndian_Uint32 (firstn 4 (skipn 3 out))
     = Some (Z.of_nat (List.length (kept fields)) mod 2 ^ 32)).
Proof.
  split.
  - intros elems out err H.
    assert (Hs : Marshal (Some (VSlice elems)) = Some (out, err)).
    { destruct H as [H | H]; [exact H|].
      rewrite Marshal_encode in *. cbn [ValueOf dynamic_value] in *.
      rewrite <- (proj2 (encode_elems elems)). exact H. }
    rewrite Marshal_encode in Hs. cbn [ValueOf dynamic_value] in Hs.
    rewrite (proj1 (encode_elems elems)) in Hs.
    destruct (encode_all elems) as [chunks|]; [|discriminate].
    injection Hs as <- _. cbn [skipn]. apply Uint32_of_count.
  - intros fields out err H.
    rewrite Marshal_encode in H. cbn [ValueOf dynamic_value] in H.
    rewrite encode_VStruct in H.
    destruct (entries fields fields) as [chunks|] eqn:Hentries; [|discriminate].
    injection H as <- _. cbn [skipn].
    pose proof (entries_kept fields fields chunks Hentries) as Hkept.
    fold (kept fields) in Hkept.
    rewrite (Forall2_length Hkept). apply Uint32_of_count.
Qed.

Lemma kept_split (before after : list (StructField * Value))
  (f : StructField) (x : Value) :
  skips (before ++ (f, x) :: after) f = false ->
  kept (before ++ (f, x) :: after)
  = filter (fun fx => negb (skips (before ++ (f, x) :: after) (fst fx))) before
      ++ (f, x)
      :: filter (fun fx => negb (skips (before ++ (f, x) :: after) (fst fx))) after.
Proof.
  intros Hs. unfold kept. rewrite filter_app. cbn [filter fst].
  rewrite Hs. reflexivity.
Qed.

(** The entry of a kept field stands between the entries of the kept
    fields declared before it and of those declared after it. *)
Lemma kept_field_entry (before after : list (StructField * Value))
  (f : StructField) (x : Value) (e e' : encodeState) (err : error) :
  let fields := before ++ (f, x) :: after in
  skips fields f = false ->
  marshalValue (VStruct fields) e = Returns err e' ->
  exists (venc : list byte) (earlier later : list (list byte)),
    encode (fieldValue fields f) = Some venc /\
    Forall2 (entry_of fields)
      (filter (fun fx => negb (skips fields (fst fx))) before) earlier /\
    Forall2 (entry_of fields)
      (filter (fun fx => negb (skips fields (fst fx))) after) later /\
    e' = e ++ uint8 SX_HASH
           :: BigEndian_PutUint32 (uint32 (Z.of_nat (List.length (kept fields))))
           ++ List.concat earlier ++ (venc ++ key_bytes f) ++ List.concat later.
Proof.
  intros fields Hs Hrun.
  apply marshalValue_Returns in Hrun. destruct Hrun as [_ [out [Hout ->]]].
  rewrite encode_VStruct in Hout.
  destruct (entries fields fields) as [chunks|] eqn:Hentries; [|discriminate].
  injection Hout as <-.
  pose proof (entries_kept fields fields chunks Hentries) as Hkept.
  fold (kept fields) in Hkept.
  rewrite <- (Forall2_length Hkept).
  unfold fields in Hkept at 2. rewrite (kept_split before after f x Hs) in Hkept.
  fold fields in Hkept.
  apply Forall2_app_inv_l in Hkept.
  destruct Hkept as [earlier [tl [Hearlier [Htl ->]]]].
  inversion Htl as [|? chunk ? later [venc [Hv Hchunk]] Hlater]; subst.
  exists venc, earlier, later.
  split; [exact Hv | split; [exact Hearlier | split; [exact Hlater|]]].
  rewrite concat_app. cbn [List.concat fst]. rewrite <- !app_assoc. reflexivity.
Qed.



(** X15. The loop fetches a field's value by the field's name
    ([value.FieldByName(f.Name)]), which finds the first field of that
    name.  A field [g] that repeats the name of an earlier field [f] (Go
    allows it for blank fields only) is therefore omit-tested on the
    value [x] of [f] and, when that test keeps it, written in its place
    as the encoding of [x], not of its own value, followed by its own
    key. *)
Theorem repeated_name_takes_first_value
  (before between after : list (StructField * Value))
  (f g : StructField) (x y : Value) (e e' : encodeState) (err : error) :
  let fields := (before ++ (f, x) :: between) ++ (g, y) :: after in
  ~ In (Name f) (map (fun fx => Name (fst fx)) before) ->
  Name g = Name f ->
  omitempty g && match Len x with Some n => n =? 0 | None => false end = false ->
  marshalValue (VStruct fields) e = Returns err e' ->
  exists (venc : list byte) (earlier later : list (list byte)),
    encode x = Some venc /\
    Forall2 (entry_of fields)
      (filter (fun fx => negb (skips fields (fst fx))) (before ++ (f, x) :: between))
      earlier /\
    Forall2 (entry_of fields)
      (filter (fun fx => negb (skips fields (fst fx))) after) later /\
    e' = e ++ uint8 SX_HASH
           :: BigEndian_PutUint32 (uint32 (Z.of_nat (List.length (kept fields))))
           ++ List.concat earlier ++ (venc ++ key_bytes g) ++ List.concat later.
Proof.
  intros fields Hname Hsame Htest Hrun.
  assert (Hown : fieldValue fields g = x).
  { unfold fieldValue, fields. rewrite Hsame, <- app_assoc.
    exact (fieldValue_first before (between ++ (g, y) :: after) f x Hname). }
  assert (Hs : skips fields g = false).
  { unfold skips. rewrite Hown. exact Htest. }
  destruct (kept_field_entry (before ++ (f, x) :: between) after g y e e' err Hs Hrun)
    as [venc [earlier [later [Hv H]]]].
  fold fields in Hv, H. rewrite Hown in Hv.
  exists venc, earlier, later. split; [exact Hv | exact H].
Qed.

Lemma encode_all_app (elems elems' : list Value) :
  encode_all (elems ++ elems') =
  match encode_all elems, encode_all elems' with
  | Some chunks, Some chunks' => Some (chunks ++ chunks')
  | _, _ => None
  end.
Proof.
  induction elems as [|x elems IH]; cbn [app encode_all].
  - destruct (encode_all elems'); reflexivity.
  - rewrite IH. destruct (encode x); [|reflexivity].
    destruct (encode_all elems); [|reflexivity].
    destruct (encode_all elems'); reflexivity.
Qed.

(** X16. Slices compose: when two slices are encoded, so is their
    concatenation, and after the tag and the count its bytes are the
    element bytes of the first followed by the element bytes of the
    second. *)
Theorem slice_of_concatenation
  (elems elems' : list Value) (out out' : list byte) :
  encode (VSlice elems) = Some out ->
  encode (VSlice elems') = Some out' ->
  encode (VSlice (elems ++ elems'))
  = Some (uint8 SX_ARRAY
            :: BigEndian_PutUint32
                 (uint32 (Z.of_nat (List.length elems) + Z.of_nat (List.length elems')))
            ++ skipn 5 out ++ skipn 5 out').
Proof.
  intros H H'.
  rewrite (proj1 (encode_elems elems)) in H.
  rewrite (proj1 (encode_elems elems')) in H'.
  rewrite (proj1 (encode_elems (elems ++ elems'))), encode_all_app.
  destruct (encode_all elems) as [chunks|]; [|discriminate].
  destruct (encode_all elems') as [chunks'|]; [|discriminate].
  injection H as <-. injection H' as <-.
  change (skipn 5 (uint8 SX_ARRAY
                     :: BigEndian_PutUint32 (uint32 (Z.of_nat (List.length elems)))
                     ++ List.concat chunks))
    with (List.concat chunks).
  change (skipn 5 (uint8 SX_ARRAY
                     :: BigEndian_PutUint32 (uint32 (Z.of_nat (List.length elems')))
                     ++ List.concat chunks'))
    with (List.concat chunks').
  rewrite concat_app, length_app, Nat2Z.inj_add. reflexivity.
Qed.

End Encoder.

(** ** The theorems at the values of the test suite *)

Lemma struct_count_is_entries_written_witness :
  marshalValue FormatFloat_none test_omit [] = Returns None test_nested_bytes /\
  exists (count : list byte) (chunks : list (list byte)),
    test_nested_bytes = [] ++ uint8 SX_HASH :: count ++ List.concat chunks /\
    Forall2 (entry_of FormatFloat_none test_omit_fields) (kept test_omit_fields) chunks /\
    List.length chunks = List.length (kept test_omit_fields) /\
    count = BigEndian_PutUint32 (uint32 (Z.of_nat (List.length chunks))) /\
    List.length count = 4%nat /\
    (Z.of_nat (List.length test_omit_fields) < 2 ^ 32 ->
     BigEndian_Uint32 count = Some (Z.of_nat (List.length chunks))).
Proof.
  split; [vm_compute; reflexivity|].
  apply (struct_count_is_entries_written FormatFloat_none test_omit_fields
           [] test_nested_bytes None).
  vm_compute. reflexivity.
Defined.


Lemma omitempty_field_is_skipped_witness :
  omitempty test_Omit = true /\
  Len (VString EmptyString) = Some 0 /\
  ~ In (Name test_Omit) (map (fun fx => Name (fst fx)) (test_nested_fields ++ [])) /\
  marshalValue FormatFloat_none (VStruct (test_nested_fields ++ (test_Omit, VString EmptyString) :: [])) []
  = marshalValue FormatFloat_none (VStruct (test_nested_fields ++ [])) [] /\
  kept (test_nested_fields ++ (test_Omit, VString EmptyString) :: [])
  = kept (test_nested_fields ++ []).
Proof.
  assert (Hname : ~ In (Name test_Omit)
                    (map (fun fx => Name (fst fx)) (test_nested_fields ++ []))).
  { intros [H | []]. discriminate H. }
  split; [reflexivity | split; [reflexivity | split; [exact Hname|]]].
  apply (omitempty_field_is_skipped FormatFloat_none test_nested_fields []
           test_Omit (VString EmptyString) []).
  - reflexivity.
  - reflexivity.
  - exact Hname.
Defined.



Lemma slice_is_tag_count_elements_witness :
  (test_slice = VSlice test_slice_elems \/ test_slice = VArray test_slice_elems) /\
  marshalValue FormatFloat_none test_slice [] = Returns None test_slice_bytes /\
  (exists (count : list byte) (chunks : list (list byte)),
     test_slice_bytes = [] ++ uint8 SX_ARRAY :: count ++ List.concat chunks /\
     Forall2 (fun elem c => encode FormatFloat_none elem = Some c) test_slice_elems chunks /\
     count = BigEndian_PutUint32 (uint32 (Z.of_nat (List.length test_slice_elems))) /\
     List.length count = 4%nat /\
     (Z.of_nat (List.length test_slice_elems) < 2 ^ 32 ->
      BigEndian_Uint32 count = Some (Z.of_nat (List.length test_slice_elems)))) /\
  marshalValue FormatFloat_none (VSlice []) []
  = Returns None ([] ++ [uint8 SX_ARRAY; x00; x00; x00; x00]).
Proof.
  assert (Hrun : marshalValue FormatFloat_none test_slice [] = Returns None test_slice_bytes)
    by (vm_compute; reflexivity).
  split; [left; reflexivity | split; [exact Hrun|]].
  split.
  - apply (proj1 (slice_is_tag_count_elements FormatFloat_none test_slice
                    test_slice_elems [] test_slice_bytes None
                    (or_introl eq_refl))).
    exact Hrun.
  - apply (proj2 (slice_is_tag_count_elements FormatFloat_none (VSlice [])
                    [] [] [] None (or_introl eq_refl))).
    reflexivity.
Defined.

Lemma pointer_is_REF_then_pointee_witness :
  is_Ptr (Kind_of test_nested) = false /\
  Kind_of test_nested <> Interface /\
  Marshal FormatFloat_none (Some test_nested)
  = Some ([x05; x07] ++ test_nested_bytes, None) /\
  firstn 2 ([x05; x07] ++ test_nested_bytes) = [uint8 MAGIC; uint8 VERSION] /\
  Marshal FormatFloat_none (Some (VPtr (Some test_nested)))
  = Some (firstn 2 ([x05; x07] ++ test_nested_bytes)
            ++ uint8 SX_REF :: skipn 2 ([x05; x07] ++ test_nested_bytes), None).
Proof.
  assert (Hiface : Kind_of test_nested <> Interface) by discriminate.
  split; [reflexivity | split; [exact Hiface | split; [vm_compute; reflexivity|]]].
  apply (pointer_is_REF_then_pointee FormatFloat_none test_nested
           ([x05; x07] ++ test_nested_bytes) None).
  - reflexivity.
  - exact Hiface.
  - vm_compute. reflexivity.
Defined.

(** C7 as the claim states it fails on a pointer to a pointer to the
    string "a": the inner pointer is encoded as header, SX_REF, scalar,
    but the outer one as header and SX_REF alone.  It fails in the same
    way on a pointer to a variable of interface type that holds "a". *)
Lemma pointer_to_pointer_counterexample :
  Marshal FormatFloat_none (Some (VPtr (Some (VString "a"))))
  = Some ([x05; x07; x04; x0a; x01; x61], None) /\
  Marshal FormatFloat_none (Some (VPtr (Some (VPtr (Some (VString "a"))))))
  = Some ([x05; x07; x04], None) /\
  Marshal FormatFloat_none (Some (VPtr (Some (VPtr (Some (VString "a"))))))
  <> Some ([x05; x07] ++ uint8 SX_REF :: [x04; x0a; x01; x61], None) /\
  Marshal FormatFloat_none (Some (VInterface (Some (VString "a"))))
  = Some ([x05; x07; x0a; x01; x61], None) /\
  Marshal FormatFloat_none (Some (VPtr (Some (VInterface (Some (VString "a"))))))
  = Some ([x05; x07; x04], None) /\
  Marshal FormatFloat_none (Some (VPtr (Some (VInterface (Some (VString "a"))))))
  <> Some ([x05; x07] ++ uint8 SX_REF :: [x0a; x01; x61], None).
Proof.
  split; [vm_compute; reflexivity | split; [vm_compute; reflexivity|]].
  split; [vm_compute; discriminate|].
  split; [vm_compute; reflexivity | split; [vm_compute; reflexivity|]].
  vm_compute. discriminate.
Qed.

Lemma header_first_and_once_witness :
  Marshal FormatFloat_none (Some test_unexported)
  = Some ([x05; x07] ++ test_unexported_bytes, None) /\
  (exists rest,
     [x05; x07] ++ test_unexported_bytes = uint8 MAGIC :: uint8 VERSION :: rest /\
     encode FormatFloat_none (ValueOf (Some test_unexported)) = Some rest) /\
  encode FormatFloat_none test_nested = Some test_nested_bytes /\
  test_nested_bytes <> uint8 MAGIC :: uint8 VERSION :: [] /\
  encode FormatFloat_none (VPtr (Some test_nested)) = Some (x04 :: test_nested_bytes) /\
  (exists chunks : list (list byte),
     Forall2 (fun elem c => encode FormatFloat_none elem = Some c) test_slice_elems chunks /\
     test_slice_bytes
     = uint8 SX_ARRAY
         :: BigEndian_PutUint32 (uint32 (Z.of_nat (List.length test_slice_elems)))
         ++ List.concat chunks) /\
  (exists values : list (list byte),
     Forall2 (fun fx venc =>
                encode FormatFloat_none (fieldValue test_unexported_fields (fst fx))
                = Some venc)
       (kept test_unexported_fields) values /\
     test_unexported_bytes
     = uint8 SX_HASH
         :: BigEndian_PutUint32
              (uint32 (Z.of_nat (List.length (kept test_unexported_fields))))
         ++ List.concat
              (map (fun p : (StructField * Value) * list byte =>
                      snd p ++ key_bytes (fst (fst p)))
                 (combine (kept test_unexported_fields) values))).
Proof.
  assert (Hrun : Marshal FormatFloat_none (Some test_unexported)
                 = Some ([x05; x07] ++ test_unexported_bytes, None))
    by (vm_compute; reflexivity).
  assert (Hnested : encode FormatFloat_none test_nested = Some test_nested_bytes)
    by (vm_compute; reflexivity).
  assert (Hslice : encode FormatFloat_none test_slice = Some test_slice_bytes)
    by (vm_compute; reflexivity).
  assert (Hstruct : encode FormatFloat_none (VStruct test_unexported_fields)
                    = Some test_unexported_bytes)
    by (vm_compute; reflexivity).
  destruct (header_first_and_once FormatFloat_none (Some test_unexported))
    as [_ [Hout [Hfront [Hptr [Helems Hfields]]]]].
  split; [exact Hrun | split; [|split; [exact Hnested | split; [|split; [|split]]]]].
  - apply (Hout _ None). exact Hrun.
  - apply (Hfront test_nested). exact Hnested.
  - rewrite (Hptr test_nested), Hnested. reflexivity.
  - apply (Helems test_slice test_slice_elems test_slice_bytes);
      [left; reflexivity | exact Hslice].
  - apply (Hfields test_unexported_fields test_unexported_bytes). exact Hstruct.
Defined.

Lemma unsupported_kind_writes_nothing_witness :
  unsupported (Kind_of (VMap [])) = true /\
  (forall e, marshalValue FormatFloat_none (VMap []) e = Returns None e) /\
  encode FormatFloat_none (VMap []) = Some [] /\
  (forall before after : list Value,
     encode FormatFloat_none (VSlice (before ++ VMap [] :: after)) =
     match encode_all FormatFloat_none (before ++ after) with
     | Some chunks =>
         Some (uint8 SX_ARRAY
                 :: BigEndian_PutUint32
                      (uint32 (Z.of_nat (List.length (before ++ after)) + 1))
                 ++ List.concat chunks)
     | None => None
     end).
Proof.
  split; [reflexivity|].
  apply (unsupported_kind_writes_nothing FormatFloat_none (VMap [])).
  reflexivity.
Defined.

(** C9 as the claim states it fails on nil: [reflect.ValueOf(nil)] is the
    zero Value, on which [value.Type()] panics, and a nil pointer panics
    the same way once its SX_REF tag is written. *)
Lemma nil_counterexample :
  Kind_of (ValueOf None) = Invalid /\
  marshalValue FormatFloat_none (ValueOf None) [] = Panics /\
  marshalValue FormatFloat_none (ValueOf None) [] <> Returns None [] /\
  Marshal FormatFloat_none None = None /\
  Marshal FormatFloat_none (Some (VPtr None)) = None.
Proof.
  split; [reflexivity | split; [reflexivity | split; [discriminate|]]].
  split; reflexivity.
Qed.

Lemma Encode_writes_what_Marshal_returns_witness :
  Marshal FormatFloat_none (Some test_slice)
  = Some ([x05; x07] ++ test_slice_bytes, None) /\
  Buffer_Write [x01] ([x05; x07] ++ test_slice_bytes)
  = ([x01] ++ [x05; x07] ++ test_slice_bytes, None) /\
  Encode FormatFloat_none (list byte) Buffer_Write
    {| enc_w := [x01]; enc_e := [x02; x03]; enc_err := None |} (Some test_slice)
  = Some ({| enc_w := [x01] ++ [x05; x07] ++ test_slice_bytes;
             enc_e := [x05; x07] ++ test_slice_bytes;
             enc_err := None |}, None) /\
  (forall earlier : encodeState,
     Encode FormatFloat_none (list byte) Buffer_Write
       {| enc_w := [x01]; enc_e := earlier; enc_err := None |} (Some test_slice)
     = Encode FormatFloat_none (list byte) Buffer_Write
         {| enc_w := [x01]; enc_e := [x02; x03]; enc_err := None |} (Some test_slice)).
Proof.
  split; [vm_compute; reflexivity | split; [reflexivity|]].
  apply (Encode_writes_what_Marshal_returns FormatFloat_none (list byte) Buffer_Write
           {| enc_w := [x01]; enc_e := [x02; x03]; enc_err := None |}
           (Some test_slice) ([x05; x07] ++ test_slice_bytes) None
           ([x01] ++ [x05; x07] ++ test_slice_bytes)).
  - vm_compute. reflexivity.
  - reflexivity.
Defined.

(** ** Further properties at the values of the test suite *)

Lemma marshalValue_only_appends_witness :
  marshalValue FormatFloat_none test_slice [x01] = Returns None ([x01] ++ test_slice_bytes) /\
  None = @None string /\
  exists out, [x01] ++ test_slice_bytes = [x01] ++ out /\
              forall e0, marshalValue FormatFloat_none test_slice e0
                         = Returns None (e0 ++ out).
Proof.
  split; [vm_compute; reflexivity|].
  apply (marshalValue_only_appends FormatFloat_none test_slice [x01]
           ([x01] ++ test_slice_bytes) None).
  vm_compute. reflexivity.
Defined.

Lemma omitempty_on_lengthless_field_panics_witness :
  In (test_Omit, VInt KInt 123)
     [(exported_field "Name" [], VString "Kevin"); (test_Omit, VInt KInt 123)] /\
  omitempty test_Omit = true /\
  Len (fieldValue [(exported_field "Name" [], VString "Kevin"); (test_Omit, VInt KInt 123)]
         test_Omit) = None /\
  marshalValue FormatFloat_none
    (VStruct [(exported_field "Name" [], VString "Kevin"); (test_Omit, VInt KInt 123)]) []
  = Panics.
Proof.
  assert (Hin : In (test_Omit, VInt KInt 123)
                  [(exported_field "Name" [], VString "Kevin"); (test_Omit, VInt KInt 123)])
    by (right; left; reflexivity).
  split; [exact Hin | split; [reflexivity | split; [reflexivity|]]].
  apply (omitempty_on_lengthless_field_panics FormatFloat_none _ test_Omit
           (VInt KInt 123) [] Hin); reflexivity.
Defined.

Lemma struct_of_skipped_fields_is_empty_hash_witness :
  (forall fx, In fx [(test_Omit, VString EmptyString)] ->
              skips [(test_Omit, VString EmptyString)] (fst fx) = true) /\
  marshalValue FormatFloat_none (VStruct [(test_Omit, VString EmptyString)]) []
  = Returns None ([] ++ [uint8 SX_HASH; x00; x00; x00; x00]).
Proof.
  assert (Hall : forall fx, In fx [(test_Omit, VString EmptyString)] ->
                   skips [(test_Omit, VString EmptyString)] (fst fx) = true).
  { intros fx [<- | []]. reflexivity. }
  split; [exact Hall|].
  apply (struct_of_skipped_fields_is_empty_hash FormatFloat_none
           [(test_Omit, VString EmptyString)] [] Hall).
Defined.

Lemma scalars_of_equal_text_encode_alike_witness :
  scalar_text FormatFloat_none (VInt KInt 1234) = Some "1234"%string /\
  scalar_text FormatFloat_none (VString "1234") = Some "1234"%string /\
  marshalValue FormatFloat_none (VInt KInt 1234) []
  = marshalValue FormatFloat_none (VString "1234") [].
Proof.
  split; [reflexivity | split; [reflexivity|]].
  apply (scalars_of_equal_text_encode_alike FormatFloat_none
           (VInt KInt 1234) (VString "1234") "1234" []); reflexivity.
Defined.

Lemma scalar_length_byte_exact_iff_short_witness :
  scalar_text FormatFloat_none (VString "Kevin") = Some "Kevin"%string /\
  exists lenbyte : byte,
    encode FormatFloat_none (VString "Kevin")
    = Some (uint8 SX_SCALAR :: lenbyte :: bytes_of "Kevin") /\
    byte_val lenbyte = Z.of_nat (List.length (bytes_of "Kevin")) mod 256 /\
    (byte_val lenbyte = Z.of_nat (List.length (bytes_of "Kevin")) <-> len "Kevin" < 256).
Proof.
  split; [reflexivity|].
  apply (scalar_length_byte_exact_iff_short FormatFloat_none (VString "Kevin") "Kevin").
  reflexivity.
Defined.

Lemma Encode_returns_the_writers_error_witness :
  Encode FormatFloat_none unit Closed_Write (NewEncoder unit tt) (Some test_slice)
  = Some ({| enc_w := tt; enc_e := [x05; x07] ++ test_slice_bytes;
             enc_err := Some "io: read/write on closed pipe"%string |},
          Some "io: read/write on closed pipe"%string) /\
  exists out : list byte,
    Marshal FormatFloat_none (Some test_slice) = Some (out, None) /\
    Closed_Write (enc_w unit (NewEncoder unit tt)) out
    = (enc_w unit {| enc_w := tt; enc_e := [x05; x07] ++ test_slice_bytes;
                     enc_err := Some "io: read/write on closed pipe"%string |},
       Some "io: read/write on closed pipe"%string) /\
    enc_e unit {| enc_w := tt; enc_e := [x05; x07] ++ test_slice_bytes;
                  enc_err := Some "io: read/write on closed pipe"%string |} = out /\
    enc_err unit {| enc_w := tt; enc_e := [x05; x07] ++ test_slice_bytes;
                    enc_err := Some "io: read/write on closed pipe"%string |}
    = (if isErr (Some "io: read/write on closed pipe"%string)
       then Some "io: read/write on closed pipe"%string
       else enc_err unit (NewEncoder unit tt)).
Proof.
  assert (Hrun : Encode FormatFloat_none unit Closed_Write (NewEncoder unit tt)
                   (Some test_slice)
                 = Some ({| enc_w := tt; enc_e := [x05; x07] ++ test_slice_bytes;
                            enc_err := Some "io: read/write on closed pipe"%string |},
                         Some "io: read/write on closed pipe"%string))
    by (vm_compute; reflexivity).
  split; [exact Hrun|].
  apply (Encode_returns_the_writers_error FormatFloat_none unit Closed_Write
           (NewEncoder unit tt) _ (Some test_slice) _ Hrun).
Defined.

Lemma Encode_twice_writes_two_headers_witness :
  Marshal FormatFloat_none (Some test_slice) = Some ([x05; x07] ++ test_slice_bytes, None) /\
  Marshal FormatFloat_none (Some test_nested) = Some ([x05; x07] ++ test_nested_bytes, None) /\
  Buffer_Write [] ([x05; x07] ++ test_slice_bytes)
  = ([x05; x07] ++ test_slice_bytes, None) /\
  Buffer_Write ([x05; x07] ++ test_slice_bytes) ([x05; x07] ++ test_nested_bytes)
  = (([x05; x07] ++ test_slice_bytes) ++ [x05; x07] ++ test_nested_bytes, None) /\
  exists enc1 enc2 : Encoder (list byte),
    Encode FormatFloat_none (list byte) Buffer_Write (NewEncoder (list byte) [])
      (Some test_slice) = Some (enc1, None) /\
    Encode FormatFloat_none (list byte) Buffer_Write enc1 (Some test_nested)
    = Some (enc2, None) /\
    enc_w (list byte) enc1 = [x05; x07] ++ test_slice_bytes /\
    enc_w (list byte) enc2
    = ([x05; x07] ++ test_slice_bytes) ++ [x05; x07] ++ test_nested_bytes /\
    enc_err (list byte) enc2 = None /\
    firstn 2 ([x05; x07] ++ test_slice_bytes) = [uint8 MAGIC; uint8 VERSION] /\
    firstn 2 ([x05; x07] ++ test_nested_bytes) = [uint8 MAGIC; uint8 VERSION].
Proof.
  assert (H1 : Marshal FormatFloat_none (Some test_slice)
               = Some ([x05; x07] ++ test_slice_bytes, None)) by (vm_compute; reflexivity).
  assert (H2 : Marshal FormatFloat_none (Some test_nested)
               = Some ([x05; x07] ++ test_nested_bytes, None)) by (vm_compute; reflexivity).
  split; [exact H1 | split; [exact H2 | split; [reflexivity | split; [reflexivity|]]]].
  apply (Encode_twice_writes_two_headers FormatFloat_none (list byte) Buffer_Write
           [] _ _ (Some test_slice) (Some test_nested) _ _ None None H1 H2);
    reflexivity.
Defined.



Lemma repeated_name_takes_first_value_witness :
  ~ In (Name blank_array) (map (fun fx : StructField * Value => Name (fst fx)) []) /\
  Name blank_omit = Name blank_array /\
  omitempty blank_omit
    && match Len (VArray [VInt KInt 0]) with Some n => n =? 0 | None => false end = false /\
  marshalValue FormatFloat_none
    (VStruct (([] ++ (blank_array, VArray [VInt KInt 0]) :: [])
                ++ (blank_omit, VString EmptyString) :: [])) []
  = Returns None ([x03; x00; x00; x00; x02] ++ blank_array_entry ++ blank_array_entry) /\
  exists (venc : list byte) (earlier later : list (list byte)),
    encode FormatFloat_none (VArray [VInt KInt 0]) = Some venc /\
    Forall2 (entry_of FormatFloat_none blank_fields)
      (filter (fun fx => negb (skips blank_fields (fst fx)))
         ([] ++ (blank_array, VArray [VInt KInt 0]) :: []))
      earlier /\
    Forall2 (entry_of FormatFloat_none blank_fields)
      (filter (fun fx => negb (skips blank_fields (fst fx))) []) later /\
    [x03; x00; x00; x00; x02] ++ blank_array_entry ++ blank_array_entry
    = [] ++ uint8 SX_HASH
        :: BigEndian_PutUint32 (uint32 (Z.of_nat (List.length (kept blank_fields))))
        ++ List.concat earlier ++ (venc ++ key_bytes blank_omit) ++ List.concat later.
Proof.
  assert (Hname : ~ In (Name blank_array)
                    (map (fun fx : StructField * Value => Name (fst fx)) []))
    by (intros []).
  assert (Hrun : marshalValue FormatFloat_none
                   (VStruct (([] ++ (blank_array, VArray [VInt KInt 0]) :: [])
                               ++ (blank_omit, VString EmptyString) :: [])) []
                 = Returns None
                     ([x03; x00; x00; x00; x02] ++ blank_array_entry ++ blank_array_entry))
    by (vm_compute; reflexivity).
  split; [exact Hname | split; [reflexivity | split; [reflexivity | split; [exact Hrun|]]]].
  apply (repeated_name_takes_first_value FormatFloat_none [] [] []
           blank_array blank_omit (VArray [VInt KInt 0]) (VString EmptyString)
           [] _ None Hname eq_refl eq_refl Hrun).
Defined.

Lemma slice_of_concatenation_witness :
  encode FormatFloat_none (VSlice [VString "hey"])
  = Some ([x02; x00; x00; x00; x01; x0a; x03] ++ bytes_of "hey") /\
  encode FormatFloat_none (VSlice [VString "there"])
  = Some ([x02; x00; x00; x00; x01; x0a; x05] ++ bytes_of "there") /\
  encode FormatFloat_none (VSlice ([VString "hey"] ++ [VString "there"]))
  = Some (uint8 SX_ARRAY
            :: BigEndian_PutUint32
                 (uint32 (Z.of_nat (List.length [VString "hey"])
                          + Z.of_nat (List.length [VString "there"])))
            ++ skipn 5 ([x02; x00; x00; x00; x01; x0a; x03] ++ bytes_of "hey")
            ++ skipn 5 ([x02; x00; x00; x00; x01; x0a; x05] ++ bytes_of "there")).
Proof.
  assert (H : encode FormatFloat_none (VSlice [VString "hey"])
              = Some ([x02; x00; x00; x00; x01; x0a; x03] ++ bytes_of "hey"))
    by (vm_compute; reflexivity).
  assert (H' : encode FormatFloat_none (VSlice [VString "there"])
               = Some ([x02; x00; x00; x00; x01; x0a; x05] ++ bytes_of "there"))
    by (vm_compute; reflexivity).
  split; [exact H | split; [exact H'|]].
  apply (slice_of_concatenation FormatFloat_none _ _ _ _ H H').
Defined.
